(** * MoveForge: the event tracker ([src/commands/track.js]) and the RPC
    client's network selection ([src/utils/rpcClient.js])

    A shallow embedding of the JavaScript of the [track] command: the event
    classifier ([parseEventType], [formatEvent]), the incremental poller
    ([pollEvents]) with its watermark [lastSeenVersion], the command entry
    point ([trackCommand]) and [RPCClient.setNetwork].

    The values the poller handles come from the JSON body of an HTTP
    response, so the embedding works on JSON values and writes out what
    JavaScript does with each of them: property reads on [null], the
    conversions behind [Number(...)] and template literals, truthiness,
    [for ... of] over a non-array, and the exceptions these raise. *)

From Stdlib Require Import String Ascii List ZArith Bool Lia DecimalString Sorted.
Import ListNotations.

Local Open Scope string_scope.
Local Open Scope list_scope.
Local Open Scope Z_scope.

Infix "+++" := String.append (right associativity, at level 60).

(** ** JavaScript values and the built-in operations the tracker uses *)

Module JS.

(** What [JSON.parse] can produce, plus [undefined] (the result of reading
    an absent property). [JNum] carries an integer: the tracker only meets
    integral numbers (versions, quantities). It stands for the double of
    that value, so fractions are not represented and the integer is one a
    double holds. A [JObj] lists the object's own properties in the order
    JavaScript enumerates them. *)
#[warnings="-register-all"]
Inductive value : Type :=
| JUndefined
| JNull
| JBool (b : bool)
| JNum (z : Z)
| JStr (s : string)
| JArr (elems : list value)
| JObj (fields : list (string * value)).

(** Thrown values. Everything thrown on the paths modelled here is an
    [Error] object or one of its subclasses; [message] is its [.message]. *)
Inductive exn : Type :=
| TypeError (msg : string)
| Error (msg : string).

Definition message (e : exn) : string :=
  match e with
  | TypeError m => m
  | Error m => m
  end.

(** A computation that returns or throws. *)
Inductive result (A : Type) : Type :=
| Ok (a : A)
| Throw (e : exn).

Arguments Ok {A} a.
Arguments Throw {A} e.

Definition rbind {A B : Type} (r : result A) (k : A -> result B) : result B :=
  match r with
  | Ok a => k a
  | Throw e => Throw e
  end.

Notation "'do' x <- c ; k" := (rbind c (fun x => k))
  (at level 10, x name, c at level 100, k at level 200,
   format "'[v' 'do'  x  <-  c ; '/' k ']'").

(** The result of [Number(...)]: [NaN], an integer, or [Infinity]. *)
Inductive number : Type :=
| NaN
| Num (z : Z)
| Infinity.

(** [a <= b] on numbers: every comparison with [NaN] is false. *)
Definition num_le (a b : number) : bool :=
  match a, b with
  | Num x, Num y => x <=? y
  | Num _, Infinity => true
  | Infinity, Infinity => true
  | _, _ => false
  end.

(** Integers that a double holds exactly. *)
Definition safe_integer (z : Z) : bool :=
  (- (2 ^ 53) <? z) && (z <? 2 ^ 53).

(** JavaScript truthiness, as used by [||], [&&], [!] and [if]. *)
Definition truthy (v : value) : bool :=
  match v with
  | JUndefined => false
  | JNull => false
  | JBool b => b
  | JNum z => negb (z =? 0)
  | JStr s => negb (String.eqb s EmptyString)
  | JArr _ => true
  | JObj _ => true
  end.

(** [a || b] *)
Definition or_else (a b : value) : value :=
  if truthy a then a else b.

(** Own property lookup. *)
Fixpoint own (k : string) (fields : list (string * value)) : option value :=
  match fields with
  | [] => None
  | (k', v) :: rest => if String.eqb k k' then Some v else own k rest
  end.

Definition has_own (k : string) (fields : list (string * value)) : bool :=
  match own k fields with
  | Some _ => true
  | None => false
  end.

(** [v.k] for the property names the tracker reads ([type], [data],
    [version], [events] and the data fields of the event kinds). None of
    them exists on [Object.prototype], [Array.prototype] or the wrapper
    prototypes of strings, numbers and booleans, so reading one from
    anything but an object that owns it gives [undefined]; reading from
    [null] or [undefined] throws. *)
Definition get (v : value) (k : string) : result value :=
  match v with
  | JUndefined =>
      Throw (TypeError ("Cannot read properties of undefined (reading '" +++ k +++ "')"))
  | JNull =>
      Throw (TypeError ("Cannot read properties of null (reading '" +++ k +++ "')"))
  | JObj fields =>
      Ok (match own k fields with
          | Some x => x
          | None => JUndefined
          end)
  | _ => Ok JUndefined
  end.

(** [v?.k]: [undefined] when [v] is [null] or [undefined]. *)
Definition get_optional (v : value) (k : string) : value :=
  match v with
  | JObj fields =>
      match own k fields with
      | Some x => x
      | None => JUndefined
      end
  | _ => JUndefined
  end.

(** [v === s] for a string [s]. *)
Definition strict_eq_string (v : value) (s : string) : bool :=
  match v with
  | JStr t => String.eqb t s
  | _ => false
  end.

(** [Array.prototype.join] on strings. *)
Fixpoint join (sep : string) (l : list string) : string :=
  match l with
  | [] => EmptyString
  | [x] => x
  | x :: rest => x +++ sep +++ join sep rest
  end.

(** Decimal text of an integer, as [String(n)] prints an integral number
    below 10^21 in magnitude. *)
Definition show_Z (z : Z) : string :=
  NilZero.string_of_int (Z.to_int z).

(** First thrown exception of a list of results, else all the values. *)
Fixpoint sequence {A : Type} (l : list (result A)) : result (list A) :=
  match l with
  | [] => Ok []
  | r :: rest =>
      do a <- r;
      do t <- sequence rest;
      Ok (a :: t)
  end.

(** [String(v)], [`${v}`] and ['' + v] on a JSON value. An array joins its
    elements with commas ([null] and [undefined] elements print as nothing).
    A plain object prints as [[object Object]], unless it owns a property
    named [toString]: a JSON value is never callable, so that property
    shadows [Object.prototype.toString] and the conversion finds no method
    that returns a primitive. *)
Fixpoint ToString (v : value) : result string :=
  match v with
  | JUndefined => Ok "undefined"
  | JNull => Ok "null"
  | JBool true => Ok "true"
  | JBool false => Ok "false"
  | JNum z => Ok (show_Z z)
  | JStr s => Ok s
  | JArr elems =>
      do parts <- sequence
        (map (fun e => match e with
                       | JUndefined => Ok EmptyString
                       | JNull => Ok EmptyString
                       | _ => ToString e
                       end) elems);
      Ok (join "," parts)
  | JObj fields =>
      if has_own "toString" fields
      then Throw (TypeError "Cannot convert object to primitive value")
      else Ok "[object Object]"
  end.

Definition digit_of (c : ascii) : option Z :=
  let n := Z.of_nat (nat_of_ascii c) in
  if (48 <=? n) && (n <=? 57) then Some (n - 48) else None.

Fixpoint decimal_value (acc : Z) (s : string) : option Z :=
  match s with
  | EmptyString => Some acc
  | String c rest =>
      match digit_of c with
      | Some d => decimal_value (10 * acc + d) rest
      | None => None
      end
  end.

(** The double nearest to a non-negative integer: the integer itself
    below 2^53; from there on the 53 leading bits, rounded to nearest with
    ties to the even significand; [Infinity] when that reaches 2^1024. *)
Definition round_double (z : Z) : number :=
  if z <? 2 ^ 53 then Num z
  else
    let e := Z.log2 z - 52 in
    let q := z / 2 ^ e in
    let r := z mod 2 ^ e in
    let half := 2 ^ (e - 1) in
    let q' := if r <? half then q
              else if half <? r then q + 1
              else if Z.even q then q else q + 1 in
    if q' * 2 ^ e <? 2 ^ 1024 then Num (q' * 2 ^ e) else Infinity.

(** [Number(s)] for a string. The literal forms modelled are the empty
    string (zero) and runs of decimal digits, which is how the RPC prints
    a u64 version; any other text is [NaN] here. That is what JavaScript
    answers for text that is no numeric literal; signed, fractional,
    exponent and radix-prefixed literals and surrounding white space are
    not interpreted by this definition, and the statements about the
    watermark are made for versions in the digit form (see
    [plain_version]). The value is a double: digits that stand for an
    integer from 2^53 on are rounded, so that [Number("9007199254740993")]
    is 9007199254740992. *)
Definition StringToNumber (s : string) : number :=
  match decimal_value 0 s with
  | Some z => round_double z
  | None => NaN
  end.

(** [Number(v)]. Arrays and objects go through their string form. *)
Definition ToNumber (v : value) : result number :=
  match v with
  | JUndefined => Ok NaN
  | JNull => Ok (Num 0)
  | JBool true => Ok (Num 1)
  | JBool false => Ok (Num 0)
  | JNum z => Ok (Num z)
  | JStr s => Ok (StringToNumber s)
  | JArr _ => do s <- ToString v; Ok (StringToNumber s)
  | JObj _ => do s <- ToString v; Ok (StringToNumber s)
  end.

(** The items of [for (const x of v)]. Arrays and strings are iterable; a
    string yields its characters, each a string. Numbers, booleans, plain
    objects, [null] and [undefined] are not iterable. *)
Definition iterate (what : string) (v : value) : result (list value) :=
  match v with
  | JArr elems => Ok elems
  | JStr s => Ok (map (fun c => JStr (String c EmptyString)) (list_ascii_of_string s))
  | _ => Throw (TypeError (what +++ " is not iterable"))
  end.

(** [String.prototype.split("::")]: cut at each leftmost occurrence of the
    separator, scanning left to right; the result is never empty. *)
Definition push_front (c : ascii) (segments : list string) : list string :=
  match segments with
  | [] => [String c EmptyString]
  | seg :: rest => String c seg :: rest
  end.

Definition is_colon (c : ascii) : bool := Ascii.eqb c ":"%char.

Fixpoint split (s : string) : list string :=
  match s with
  | EmptyString => [EmptyString]
  | String c rest =>
      match rest with
      | String c' rest' =>
          if is_colon c && is_colon c'
          then EmptyString :: split rest'
          else push_front c (split rest)
      | EmptyString => [String c EmptyString]
      end
  end.

(** [JSON.stringify]: string quoting. *)
Definition hex_digit (n : nat) : ascii :=
  nth n (list_ascii_of_string "0123456789abcdef") "0"%char.

Definition quote_char (c : ascii) : string :=
  let n := nat_of_ascii c in
  if Nat.eqb n 34 then String "\"%char (String c EmptyString)
  else if Nat.eqb n 92 then String "\"%char (String c EmptyString)
  else if Nat.eqb n 8 then "\b"
  else if Nat.eqb n 9 then "\t"
  else if Nat.eqb n 10 then "\n"
  else if Nat.eqb n 12 then "\f"
  else if Nat.eqb n 13 then "\r"
  else if Nat.ltb n 32 then
    "\u00" +++ String (hex_digit (Nat.div n 16)) (String (hex_digit (Nat.modulo n 16)) EmptyString)
  else String c EmptyString.

Definition double_quote : string := String (ascii_of_nat 34) EmptyString.

Definition quote (s : string) : string :=
  double_quote +++ String.concat EmptyString (map quote_char (list_ascii_of_string s)) +++ double_quote.

(** [JSON.stringify(v)] without indentation. Inside an array [undefined]
    prints as [null]; inside an object a property whose value is
    [undefined] is left out. At top level [JSON.stringify(undefined)] is
    [undefined], which a template literal prints as that word. *)
Fixpoint stringify (v : value) : string :=
  match v with
  | JUndefined => "undefined"
  | JNull => "null"
  | JBool true => "true"
  | JBool false => "false"
  | JNum z => show_Z z
  | JStr s => quote s
  | JArr elems =>
      "[" +++ join ","
        (map (fun e => match e with
                       | JUndefined => "null"
                       | _ => stringify e
                       end) elems) +++ "]"
  | JObj fields =>
      "{" +++ join ","
        (flat_map (fun kv => match kv with
                             | (k, x) =>
                                 match x with
                                 | JUndefined => []
                                 | _ => [quote k +++ ":" +++ stringify x]
                                 end
                             end) fields) +++ "}"
  end.

End JS.

Import JS.

(** ** What the program does to the outside: logger calls and the wait

    [utils/logger] is used through its calls only; each call is recorded
    with the text it is given. [Sleep] is the
    [await new Promise(r => setTimeout(r, intervalMs))] that ends a poll
    cycle. A trace lists the calls that [track.js] makes. The RPC client
    calls the logger too while it fetches ([logger.debug] with the URL,
    and [logger.errorDetail] or [logger.error] in [handleError] before
    it throws): those calls are not part of a trace. *)
Inductive effect : Type :=
| Info (msg : string)
| Success (msg : string)
| Warning (msg : string)
| ErrorLine (msg : string)
| NewLine
| StartSpinner (msg : string)
| SucceedSpinner (msg : string)
| Sleep (ms : number).

(** ** [utils/rpcClient.js]: the network table *)

Module Rpc.

(** [this.networks] maps a network name to its base URL; [networks] lists
    its own properties in enumeration order. *)
Record RPCClient : Type := mkRPCClient {
  networks : list (string * string);
  currentNetwork : string
}.

(** The state the constructor builds. *)
Definition new_RPCClient : RPCClient :=
  {| networks :=
       [("testnet", "https://aptos.testnet.porto.movementlabs.xyz/v1");
        ("devnet", "https://aptos.devnet.porto.movementlabs.xyz/v1");
        ("mainnet", "https://mainnet.movementnetwork.xyz/v1")];
     currentNetwork := "testnet" |}.

(** [this.networks] is an object literal, so a name it does not own is
    looked up on [Object.prototype]. These are the properties found there;
    each is a function, or for [__proto__] the prototype object. *)
Definition object_prototype_properties : list string :=
  ["constructor"; "__defineGetter__"; "__defineSetter__"; "hasOwnProperty";
   "__lookupGetter__"; "__lookupSetter__"; "isPrototypeOf";
   "propertyIsEnumerable"; "toString"; "valueOf"; "__proto__";
   "toLocaleString"].

(** What [this.networks[name]] evaluates to. *)
Inductive property : Type :=
| OwnUrl (url : string)
| Inherited (name : string)
| Absent.

Fixpoint own_url (name : string) (table : list (string * string)) : option string :=
  match table with
  | [] => None
  | (k, url) :: rest => if String.eqb name k then Some url else own_url name rest
  end.

Definition networks_get (table : list (string * string)) (name : string) : property :=
  match own_url name table with
  | Some url => OwnUrl url
  | None =>
      if existsb (String.eqb name) object_prototype_properties
      then Inherited name
      else Absent
  end.

Definition property_truthy (p : property) : bool :=
  match p with
  | OwnUrl url => negb (String.eqb url EmptyString)
  | Inherited _ => true
  | Absent => false
  end.

(** [Object.keys(this.networks)] *)
Definition Object_keys (table : list (string * string)) : list string :=
  map fst table.

(** [setNetwork(network)]: throws, or sets [currentNetwork] and logs. *)
Definition setNetwork (network : string) (c : RPCClient)
  : result (RPCClient * list effect) :=
  if negb (property_truthy (networks_get (networks c) network)) then
    Throw (Error ("Unknown network: " +++ network +++ ". Available: "
                  +++ join ", " (Object_keys (networks c))))
  else
    Ok ({| networks := networks c; currentNetwork := network |},
        [Info ("Network set to: " +++ network)]).

(** [getEndpoint()] *)
Definition getEndpoint (c : RPCClient) : property :=
  networks_get (networks c) (currentNetwork c).

(** The outcome of [await rpc.getAccountTransactions(address, params)]:
    the body of the HTTP response, or the [Error] that [handleError]
    throws. Only the outcome is kept: what the client logged on the way
    is not (see [effect]). *)
Inductive response : Type :=
| Resolved (data : value)
| Rejected (e : exn).

Definition await (r : response) : result value :=
  match r with
  | Resolved data => Ok data
  | Rejected e => Throw e
  end.

End Rpc.

(** ** [src/commands/track.js] *)

Module Track.

Import Rpc.

(** *** The event classifier *)

Record event_type : Type := mkEventType {
  address : string;
  module : string;
  name : string
}.

(** [parseEventType(typeStr)] for a string argument; [None] is [null]. *)
Definition parseEventType (typeStr : string) : option event_type :=
  let parts := split typeStr in
  if (length parts <? 3)%nat then None
  else Some {| address := nth 0 parts EmptyString;
               module := nth 1 parts EmptyString;
               name := nth 2 parts EmptyString |}.

(** The call [parseEventType(v)] on whatever [evt.type || ''] is: only a
    string has a [split] method. *)
Definition call_parseEventType (v : value) : result (option event_type) :=
  match v with
  | JStr s => Ok (parseEventType s)
  | JUndefined =>
      Throw (TypeError "Cannot read properties of undefined (reading 'split')")
  | JNull =>
      Throw (TypeError "Cannot read properties of null (reading 'split')")
  | _ => Throw (TypeError "typeStr.split is not a function")
  end.

(** The styling functions of [chalk] that [formatEvent] calls, each taken
    on the string form of its argument. *)
Record Chalk : Type := mkChalk {
  gray : string -> string;
  white : string -> string;
  cyan : string -> string;
  green : string -> string;
  magenta : string -> string;
  blue : string -> string
}.

(** [chalk] without colour support (output that is not a terminal). *)
Definition plain_chalk : Chalk :=
  {| gray := fun s => s; white := fun s => s; cyan := fun s => s;
     green := fun s => s; magenta := fun s => s; blue := fun s => s |}.

(** [style(data.field)]: reads the field and converts it to a string. *)
Definition paint (style : string -> string) (data : value) (field : string)
  : result string :=
  do x <- get data field;
  do s <- ToString x;
  Ok (style s).

(** A template literal: its pieces, evaluated left to right. *)
Definition template (pieces : list (result string)) : result string :=
  do l <- sequence pieces;
  Ok (String.concat EmptyString l).

Definition formatEvent (ch : Chalk) (evt : value) : result string :=
  do ty <- get evt "type";
  do parsed <- call_parseEventType (or_else ty (JStr EmptyString));
  match parsed with
  | None => Ok ("Unknown event: " +++ stringify evt)
  | Some p =>
      do d <- get evt "data";
      let data := or_else d (JObj []) in
      let prefix := gray ch "[" +++ white ch (name p) +++ gray ch "]" in
      if String.eqb (name p) "DrillingStartedEvent" then
        template [Ok prefix; Ok " batch "; paint (cyan ch) data "batch_id";
                  Ok " — "; Ok (green ch "drilling started"); Ok " at ";
                  paint (white ch) data "location"; Ok " • qty ";
                  paint (white ch) data "quantity"; Ok " ";
                  paint (white ch) data "unit"]
      else if String.eqb (name p) "DrillingCompletedEvent" then
        template [Ok prefix; Ok " batch "; paint (cyan ch) data "batch_id";
                  Ok " — "; Ok (green ch "drilling completed"); Ok " at ";
                  paint (white ch) data "location"]
      else if String.eqb (name p) "TransportationEvent" then
        template [Ok prefix; Ok " batch "; paint (cyan ch) data "batch_id";
                  Ok " — moved "; paint (white ch) data "method";
                  Ok " from "; paint (white ch) data "from";
                  Ok " → "; paint (white ch) data "to"]
      else if String.eqb (name p) "RefiningEvent" then
        template [Ok prefix; Ok " batch "; paint (cyan ch) data "batch_id";
                  Ok " — "; Ok (magenta ch "refined"); Ok " at ";
                  paint (white ch) data "refinery"; Ok " • output ";
                  paint (white ch) data "output_quantity"; Ok " ";
                  paint (white ch) data "unit"]
      else if String.eqb (name p) "DeliveryEvent" then
        template [Ok prefix; Ok " batch "; paint (cyan ch) data "batch_id";
                  Ok " — "; Ok (blue ch "delivered"); Ok " to ";
                  paint (white ch) data "destination"]
      else
        template [Ok prefix; Ok " "; Ok (stringify data)]
  end.

(** *** The poller

    A computation of the poller reads and writes [lastSeenVersion], calls
    the logger and may throw. It maps the watermark before to the result,
    the watermark after and the effects performed, in order. What was
    written and logged before a throw stays. *)
Definition M (A : Type) : Type := value -> result A * value * list effect.

Definition ret {A : Type} (a : A) : M A :=
  fun w => (Ok a, w, []).

Definition bind {A B : Type} (m : M A) (k : A -> M B) : M B :=
  fun w =>
    match m w with
    | (Ok a, w1, out1) =>
        match k a w1 with
        | (r, w2, out2) => (r, w2, out1 ++ out2)
        end
    | (Throw e, w1, out1) => (Throw e, w1, out1)
    end.

Notation "x <- c ;; k" := (bind c (fun x => k))
  (at level 61, c at next level, right associativity).
Notation "c ;; k" := (bind c (fun _ => k))
  (at level 61, right associativity).

Definition lift {A : Type} (r : result A) : M A :=
  fun w => (r, w, []).

Definition log (e : effect) : M unit :=
  fun w => (Ok tt, w, [e]).

Definition read_lastSeenVersion : M value :=
  fun w => (Ok w, w, []).

Definition write_lastSeenVersion (v : value) : M unit :=
  fun _ => (Ok tt, v, []).

(** [try { body } catch (err) { handler }] *)
Definition try_catch (body : M unit) (handler : exn -> M unit) : M unit :=
  fun w =>
    match body w with
    | (Ok u, w1, out1) => (Ok u, w1, out1)
    | (Throw e, w1, out1) =>
        match handler e w1 with
        | (r, w2, out2) => (r, w2, out1 ++ out2)
        end
    end.

(** [for (const x of items) { body }]; a [continue] in the body is the
    body returning. *)
Fixpoint for_of (items : list value) (body : value -> M unit) : M unit :=
  match items with
  | [] => ret tt
  | x :: rest => body x ;; for_of rest body
  end.

(** The options [pollEvents] destructures. A filter that is absent is
    [None] ([null] or [undefined]). *)
Record poll_options : Type := mkPollOptions {
  moduleFilter : option string;
  batchId : option string;
  intervalMs : number
}.

(** [filter && actual !== filter] *)
Definition rejects (filter : option string) (actual : value) : bool :=
  match filter with
  | Some f => negb (String.eqb f EmptyString) && negb (strict_eq_string actual f)
  | None => false
  end.

(** [batchId && evt.data?.batch_id !== batchId]; [evt.data] is read only
    when [batchId] is truthy. *)
Definition batch_rejects (batch : option string) (evt : value) : result bool :=
  match batch with
  | Some b =>
      if String.eqb b EmptyString then Ok false
      else
        do d <- get evt "data";
        Ok (negb (strict_eq_string (get_optional d "batch_id") b))
  | None => Ok false
  end.

(** The body of [for (const evt of events)]. *)
Definition event_body (ch : Chalk) (opts : poll_options) (evt : value) : M unit :=
  ty <- lift (get evt "type") ;;
  parsed <- lift (call_parseEventType (or_else ty (JStr EmptyString))) ;;
  match parsed with
  | None => ret tt
  | Some p =>
      if rejects (moduleFilter opts) (JStr (module p)) then ret tt
      else
        skip <- lift (batch_rejects (batchId opts) evt) ;;
        if skip : bool then ret tt
        else
          log NewLine ;;
          line <- lift (formatEvent ch evt) ;;
          log (Success line)
  end.

(** [lastSeenVersion !== null && Number(version) <= Number(lastSeenVersion)] *)
Definition already_seen (version lastSeenVersion : value) : result bool :=
  match lastSeenVersion with
  | JNull => Ok false
  | _ =>
      do a <- ToNumber version;
      do b <- ToNumber lastSeenVersion;
      Ok (num_le a b)
  end.

(** The body of [for (const txn of ordered)]. *)
Definition txn_body (ch : Chalk) (opts : poll_options) (txn : value) : M unit :=
  version <- lift (get txn "version") ;;
  lastSeenVersion <- read_lastSeenVersion ;;
  seen <- lift (already_seen version lastSeenVersion) ;;
  if seen : bool then ret tt
  else
    evs <- lift (get txn "events") ;;
    events <- lift (iterate "events" (or_else evs (JArr []))) ;;
    for_of events (event_body ch opts) ;;
    write_lastSeenVersion version.

(** [Array.isArray(txns) ? txns.slice().reverse() : []] *)
Definition ordered (txns : value) : list value :=
  match txns with
  | JArr elems => rev elems
  | _ => []
  end.

(** The [try] block of one turn of [while (true)]. *)
Definition try_block (ch : Chalk) (opts : poll_options) (r : response) : M unit :=
  txns <- lift (await r) ;;
  for_of (ordered txns) (txn_body ch opts).

(** One turn of [while (true)]: the [try] block, its [catch], the wait. *)
Definition poll_cycle (ch : Chalk) (opts : poll_options) (r : response) : M unit :=
  try_catch
    (try_block ch opts r)
    (fun err => log (Warning ("Polling error: " +++ message err))) ;;
  log (Sleep (intervalMs opts)).

(** The loop, run against the gateway's answers to its successive calls:
    one turn per answer. The loop of the source has no exit; a finite list
    of answers gives the run up to that many turns. *)
Fixpoint poll_loop (ch : Chalk) (opts : poll_options) (answers : list response)
  : M unit :=
  match answers with
  | [] => ret tt
  | r :: rest => poll_cycle ch opts r ;; poll_loop ch opts rest
  end.

Definition is_set (filter : option string) : bool :=
  match filter with
  | Some f => negb (String.eqb f EmptyString)
  | None => false
  end.

(** [if (filter) logger.info(`${label}${filter}`)] *)
Definition announce (label : string) (filter : option string) : M unit :=
  match filter with
  | Some f => if String.eqb f EmptyString then ret tt else log (Info (label +++ f))
  | None => ret tt
  end.

(** The watermark before the first turn. *)
Definition initial_lastSeenVersion : value := JNull.

Definition pollEvents (ch : Chalk) (addr : string) (opts : poll_options)
    (answers : list response) : result unit * value * list effect :=
  (log (Info ("Tracking events for account: " +++ addr)) ;;
   announce "Module filter: " (moduleFilter opts) ;;
   announce "Batch filter: " (batchId opts) ;;
   poll_loop ch opts answers) initial_lastSeenVersion.

(** *** The command *)

(** The options [commander] hands to the command: each is a string or
    absent. *)
Record track_opts : Type := mkTrackOpts {
  opt_address : option string;
  opt_module : option string;
  opt_batch : option string;
  opt_network : option string;
  opt_interval : option string
}.

(** [o || fallback] on an optional string. *)
Definition string_or (o : option string) (fallback : string) : string :=
  match o with
  | Some s => if String.eqb s EmptyString then fallback else s
  | None => fallback
  end.

(** How a run of the command ends up: the process exited, or the poller
    is running on the client as the command left it. *)
Inductive outcome : Type :=
| Exited (code : Z) (out : list effect)
| Polling (rpc : RPCClient) (r : result unit) (lastSeenVersion : value)
          (out : list effect).

(** The command, run against the gateway's answers. [Number(opts.interval)]
    is [StringToNumber]: exact for an interval written in decimal digits,
    the other numeric forms being outside that definition. *)
Definition trackCommand (ch : Chalk) (opts : track_opts) (rpc : RPCClient)
    (answers : list response) : outcome :=
  let moduleFilter := string_or (opt_module opts) "oil_supply_chain" in
  let batchId := if is_set (opt_batch opts) then opt_batch opts else None in
  let network := string_or (opt_network opts) "testnet" in
  let intervalMs :=
    match opt_interval opts with
    | Some s => if String.eqb s EmptyString then Num 5000 else StringToNumber s
    | None => Num 5000
    end in
  if negb (is_set (opt_address opts)) then
    Exited 1 [ErrorLine "Address is required. Use --address <accountAddress>"]
  else
    let addr := string_or (opt_address opts) EmptyString in
    let '(rpc1, out1) :=
      match setNetwork network rpc with
      | Ok (c, out) => (c, out)
      | Throw e =>
          (rpc, [Warning ("Unknown network '" +++ network +++ "', defaulting to testnet.")])
      end in
    let out2 := [StartSpinner "Connecting to RPC and starting tracker...";
                 SucceedSpinner "Tracker running. Listening for events."] in
    match pollEvents ch addr
            {| moduleFilter := Some moduleFilter; batchId := batchId;
               intervalMs := intervalMs |} answers with
    | (r, w, out3) => Polling rpc1 r w (out1 ++ out2 ++ out3)
    end.

End Track.

(** ** Vocabulary of the statements *)

Import Rpc Track.

(** A segment free of colons, as addresses, module names and event names
    are. *)
Definition colon_free (s : string) : Prop :=
  Forall (fun c => is_colon c = false) (list_ascii_of_string s).

(** The integer a version stands for: a number, or a non-empty string of
    decimal digits, that a double holds exactly. On these [Number(...)] is
    the integer itself. *)
Definition plain_version (v : value) : option Z :=
  match v with
  | JNum z => if safe_integer z then Some z else None
  | JStr (String c rest) =>
      match decimal_value 0 (String c rest) with
      | Some z => if safe_integer z then Some z else None
      | None => None
      end
  | _ => None
  end.

(** The version of a transaction record that carries a plain one. *)
Definition version_of (txn : value) : option Z :=
  match txn with
  | JObj fields =>
      match own "version" fields with
      | Some v => plain_version v
      | None => None
      end
  | _ => None
  end.

Definition versioned (txn : value) : Prop := version_of txn <> None.

(** [txn.version] as a value. *)
Definition version_value (txn : value) : value :=
  match get txn "version" with
  | Ok v => v
  | Throw _ => JUndefined
  end.

(** The states of the watermark: unset ([null]) or a plain version. Its
    level is [None] while unset. *)
Definition watermark (w : value) : Prop :=
  w = JNull \/ plain_version w <> None.

Definition level (w : value) : option Z := plain_version w.

Definition level_le (a b : option Z) : Prop :=
  match a, b with
  | None, _ => True
  | Some x, Some y => x <= y
  | Some _, None => False
  end.

Definition level_max (a b : option Z) : option Z :=
  match a, b with
  | None, _ => b
  | _, None => a
  | Some x, Some y => Some (Z.max x y)
  end.

(** The highest version of a batch, [None] for an empty one. *)
Definition highest (batch : list value) : option Z :=
  fold_right (fun txn acc => level_max (version_of txn) acc) None batch.

(** [below w txn]: the version of [txn] is at most the level [w]. *)
Definition below (w : option Z) (txn : value) : bool :=
  match version_of txn, w with
  | Some z, Some zw => z <=? zw
  | _, _ => false
  end.

(** An answer of the gateway whose transactions all carry a plain
    version. Rejections and bodies that are no array qualify. *)
Definition versioned_answer (r : response) : Prop :=
  match r with
  | Resolved (JArr batch) => Forall versioned batch
  | _ => True
  end.

(** The events part of the loop body on one transaction ([txn.events || []]
    and the inner loop): whether it returns, and what it logs. *)
Definition tx_run (ch : Chalk) (opts : poll_options) (txn : value)
  : result unit * list effect :=
  match (evs <- lift (get txn "events") ;;
         events <- lift (iterate "events" (or_else evs (JArr []))) ;;
         for_of events (event_body ch opts)) JNull with
  | (r, _, out) => (r, out)
  end.

(** The list the inner loop walks. *)
Definition events_of (txn : value) : list value :=
  match get txn "events" with
  | Ok evs =>
      match iterate "events" (or_else evs (JArr [])) with
      | Ok l => l
      | Throw _ => []
      end
  | Throw _ => []
  end.

(** What the inner loop's body logs for one event. *)
Definition event_output (ch : Chalk) (opts : poll_options) (evt : value)
  : list effect :=
  snd (event_body ch opts evt JNull).

Definition tx_output (ch : Chalk) (opts : poll_options) (txn : value)
  : list effect :=
  concat (map (event_output ch opts) (events_of txn)).

(** The watermark a computation leaves, and what it logs. *)
Definition watermark_after {A : Type} (m : M A) (w : value) : value :=
  snd (fst (m w)).

Definition effects_of {A : Type} (m : M A) (w : value) : list effect :=
  snd (m w).

Definition returns {A : Type} (m : M A) (w : value) : Prop :=
  exists a, fst (fst (m w)) = Ok a.

(** [older a b]: both carry a plain version and that of [a] is the
    smaller. A batch is newest-first when each record is newer than all
    that follow it, oldest-first when each is older. *)
Definition older (a b : value) : Prop :=
  match version_of a, version_of b with
  | Some x, Some y => x < y
  | _, _ => False
  end.

Definition newest_first (batch : list value) : Prop :=
  StronglySorted (fun a b => older b a) batch.

Definition oldest_first (batch : list value) : Prop :=
  StronglySorted older batch.

(** The transactions of a batch that the guard lets through at level [w]. *)
Definition fresh (w : option Z) (batch : list value) : list value :=
  filter (fun txn => negb (below w txn)) batch.



(** The event kinds [formatEvent] has a template for. *)
Definition known_kinds : list string :=
  ["DrillingStartedEvent"; "DrillingCompletedEvent"; "TransportationEvent";
   "RefiningEvent"; "DeliveryEvent"].

(** A value whose conversion to a string returns, and the string. *)
Definition printable (v : value) : Prop :=
  exists s, ToString v = Ok s.

Definition shown (v : value) : string :=
  match ToString v with
  | Ok s => s
  | Throw _ => EmptyString
  end.

(** Sample records, in the shape the RPC returns them. *)
Module Sample.

Definition event (type : string) (data : list (string * value)) : value :=
  JObj [("type", JStr type); ("data", JObj data)].

Definition drilling_started (batch location : string) (quantity : Z) : value :=
  event "0xabc::oil_supply_chain::DrillingStartedEvent"
    [("batch_id", JStr batch); ("location", JStr location);
     ("quantity", JNum quantity); ("unit", JStr "bbl")].

Definition delivery (batch destination : string) : value :=
  event "0xabc::oil_supply_chain::DeliveryEvent"
    [("batch_id", JStr batch); ("destination", JStr destination)].

Definition txn (version : string) (events : list value) : value :=
  JObj [("version", JStr version); ("events", JArr events)].

Definition t10 : value := txn "10" [drilling_started "BATCH-10" "Field-A" 100].
Definition t11 : value := txn "11" [delivery "BATCH-10" "Port-B"].
Definition t12 : value :=
  txn "12" [drilling_started "BATCH-12" "Field-C" 250; delivery "BATCH-12" "Port-D"].



(** The options the command passes when only [--address] is given. *)
Definition defaults : poll_options :=
  {| moduleFilter := Some "oil_supply_chain"; batchId := None;
     intervalMs := Num 5000 |}.

End Sample.

(** A computation that neither reads nor writes the watermark. *)
Definition stateless {A : Type} (m : M A) : Prop :=
  forall w, m w = (fst (fst (m JNull)), w, snd (m JNull)).

(** ** More of [utils/rpcClient.js]: custom endpoints and explorer links *)

Module RpcClient.

(** A call of [logger.debug]. *)
Inductive debug_line : Type :=
| Debug (msg : string).

(** The array indices among property names: the canonical decimal text of
    an integer from 0 to 2^32 - 2. An object enumerates these first, in
    ascending order, before its other names in order of creation. *)
Definition array_index (k : string) : option Z :=
  match k with
  | EmptyString => None
  | String _ _ =>
      match decimal_value 0 k with
      | Some z =>
          if String.eqb (show_Z z) k && (z <? 4294967295) then Some z else None
      | None => None
      end
  end.

(** Writing to a property the object owns keeps its place. *)
Fixpoint replace_own (k url : string) (table : list (string * string))
  : list (string * string) :=
  match table with
  | [] => []
  | (k', u) :: rest =>
      if String.eqb k k' then (k', url) :: rest
      else (k', u) :: replace_own k url rest
  end.

(** A new array index goes after the smaller indices. *)
Fixpoint insert_index (i : Z) (k url : string) (table : list (string * string))
  : list (string * string) :=
  match table with
  | [] => [(k, url)]
  | (k', u) :: rest =>
      match array_index k' with
      | Some j =>
          if j <? i then (k', u) :: insert_index i k url rest
          else (k, url) :: (k', u) :: rest
      | None => (k, url) :: (k', u) :: rest
      end
  end.

(** [this.networks[k] = url] for a string [url]. A name the object owns
    is overwritten. Otherwise [__proto__] reaches the accessor of
    [Object.prototype], which ignores a string; any other name becomes a
    new own property. *)
Definition assign (table : list (string * string)) (k url : string)
  : list (string * string) :=
  match Rpc.own_url k table with
  | Some _ => replace_own k url table
  | None =>
      if String.eqb k "__proto__" then table
      else
        match array_index k with
        | Some i => insert_index i k url table
        | None => table ++ [(k, url)]
        end
  end.

(** [setCustomEndpoint(network, rpcUrl)]; the callers pass the [rpc]
    string of the configuration. *)
Definition setCustomEndpoint (network rpcUrl : string) (c : Rpc.RPCClient)
  : Rpc.RPCClient * list debug_line :=
  ({| Rpc.networks := assign (Rpc.networks c) network rpcUrl;
      Rpc.currentNetwork := Rpc.currentNetwork c |},
   [Debug ("Configured custom RPC endpoint for " +++ network +++ ": " +++ rpcUrl)]).

(** [getExplorerUrl(txnHash)]: a lookup of the current network in an
    object literal built around the hash. *)
Definition getExplorerUrl (txnHash : string) (c : Rpc.RPCClient) : Rpc.property :=
  Rpc.networks_get
    [("testnet", "https://explorer.movementnetwork.xyz/txn/" +++ txnHash
                 +++ "?network=testnet");
     ("devnet", "https://explorer.movementnetwork.xyz/txn/" +++ txnHash
                +++ "?network=devnet");
     ("mainnet", "https://explorer.movementnetwork.xyz/txn/" +++ txnHash)]
    (Rpc.currentNetwork c).

(** [getAccountExplorerUrl(address)] *)
Definition getAccountExplorerUrl (address : string) (c : Rpc.RPCClient)
  : Rpc.property :=
  Rpc.networks_get
    [("testnet", "https://explorer.movementnetwork.xyz/account/" +++ address
                 +++ "?network=testnet");
     ("devnet", "https://explorer.movementnetwork.xyz/account/" +++ address
                +++ "?network=devnet");
     ("mainnet", "https://explorer.movementnetwork.xyz/account/" +++ address)]
    (Rpc.currentNetwork c).

(** [waitForTransaction(txnHash, timeoutMs)], run against the clock and
    the gateway: [clock] lists the values of the successive calls of
    [Date.now()], [answers] the outcomes of the successive calls of
    [getTransaction(txnHash)]. The result is [None] when one of the lists
    is used up before the function has returned or thrown. Each [Sleep] is
    the one-second wait that ends a turn of the loop; the function logs
    nothing itself, and what [getTransaction] logs on its way is not
    listed. *)
Fixpoint wait_loop (startTime timeoutMs : Z) (clock : list Z)
    (answers : list Rpc.response) : option (result value * list effect) :=
  match clock with
  | [] => None
  | now :: later =>
      if now - startTime <? timeoutMs then
        match answers with
        | [] => None
        | r :: rest =>
            let again :=
              match wait_loop startTime timeoutMs later rest with
              | Some (res, out) => Some (res, Sleep (Num 1000) :: out)
              | None => None
              end in
            match (do txn <- Rpc.await r;
                   do success <- get txn "success";
                   Ok (txn, success)) with
            | Ok (txn, JUndefined) => again
            | Ok (txn, _) => Some (Ok txn, [])
            | Throw _ => again
            end
        end
      else Some (Throw (Error "Transaction confirmation timeout"), [])
  end.

Definition waitForTransaction (txnHash : string) (timeoutMs : Z)
    (clock : list Z) (answers : list Rpc.response)
  : option (result value * list effect) :=
  match clock with
  | [] => None
  | startTime :: later => wait_loop startTime timeoutMs later answers
  end.

(** The names the constructor registers. *)
Definition builtin_networks : list string := ["testnet"; "devnet"; "mainnet"].

End RpcClient.

(** ** [utils/config.js]: the default network of a configuration *)

Module Config.

(** [getDefaultNetwork(configData)] on the parsed JSON of the
    configuration file, or on [undefined] when called without argument. *)
Definition getDefaultNetwork (configData : value) : result value :=
  if negb (truthy configData) then Ok JNull
  else
    do deployment <- get configData "deployment";
    if negb (truthy deployment) then Ok JNull
    else
      do name <- get deployment "defaultNetwork";
      Ok (or_else name JNull).

End Config.

(** ** [src/commands/simulate.js]: the arguments of the simulated call *)

Module Simulate.

(** [arg.includes(':')] *)
Definition includes_colon (arg : string) : bool :=
  existsb is_colon (list_ascii_of_string arg).

(** [arg.split(':')] *)
Fixpoint split_colon (s : string) : list string :=
  match s with
  | EmptyString => [EmptyString]
  | String c rest =>
      if is_colon c then EmptyString :: split_colon rest
      else push_front c (split_colon rest)
  end.

(** [toLowerCase] on the letters A to Z. The words it is compared with
    here ([bool], [true] and the other type names) are reached from no
    character outside ASCII, so the comparisons come out as in
    JavaScript for any text. *)
Definition lower (c : ascii) : ascii :=
  let n := nat_of_ascii c in
  if Nat.leb 65 n && Nat.leb n 90 then ascii_of_nat (n + 32) else c.

Fixpoint toLowerCase (s : string) : string :=
  match s with
  | EmptyString => EmptyString
  | String c rest => String (lower c) (toLowerCase rest)
  end.

(** The function mapped over the arguments. [[type, value] = parts] takes
    the first two segments; an argument with a colon has both. *)
Definition parseArgument (arg : string) : value :=
  if includes_colon arg then
    let parts := split_colon arg in
    let type := nth 0 parts EmptyString in
    let value := nth 1 parts EmptyString in
    let tag := toLowerCase type in
    if String.eqb tag "u8" then JStr value
    else if String.eqb tag "u64" then JStr value
    else if String.eqb tag "u128" then JStr value
    else if String.eqb tag "bool" then JBool (String.eqb (toLowerCase value) "true")
    else if String.eqb tag "address" then JStr value
    else if String.eqb tag "string" then JStr value
    else JStr value
  else JStr arg.

Definition parseArguments (args : list string) : list value :=
  map parseArgument args.

End Simulate.

(** ** Further vocabulary *)

(** [level_lt w z]: the level [w] is unset or below [z]. *)
Definition level_lt (w : option Z) (z : Z) : Prop :=
  match w with
  | None => True
  | Some x => x < z
  end.

(** An answer of the gateway that is a rejection, a body that is no
    array, or a newest-first batch of versioned transactions in which
    [txn] occurs. *)
Definition shows (txn : value) (r : response) : Prop :=
  match r with
  | Resolved (JArr batch) =>
      Forall versioned batch /\ newest_first batch /\ In txn batch
  | _ => True
  end.

(** The logger calls of the inner loop. *)
Definition event_line (e : effect) : bool :=
  match e with
  | NewLine => true
  | Success _ => true
  | _ => false
  end.

Definition is_sleep (e : effect) : bool :=
  match e with
  | Sleep _ => true
  | _ => false
  end.

Definition is_warning (e : effect) : bool :=
  match e with
  | Warning _ => true
  | _ => false
  end.

(** The lines of the tracker in a trace: event lines and warnings. *)
Definition tracker_lines (out : list effect) : list effect :=
  filter (fun e => event_line e || is_warning e) out.

(** A computation that logs event lines only. *)
Definition quiet {A : Type} (m : M A) : Prop :=
  forall w, forallb event_line (snd (m w)) = true.

(** Values that are no array and no object. *)
Definition scalar (v : value) : bool :=
  match v with
  | JArr _ => false
  | JObj _ => false
  | _ => true
  end.

(** The effects of a run without its waits. *)
Definition logged (out : list effect) : list effect :=
  filter (fun e => negb (is_sleep e)) out.

(** A gateway that answers each call with the whole history so far,
    newest first: [arrivals] lists the transactions that arrived before
    each successive poll, after those already [seen]. *)
Fixpoint full_history (seen : list value) (arrivals : list (list value))
  : list response :=
  match arrivals with
  | [] => []
  | arrived :: rest =>
      Resolved (JArr (rev (seen ++ arrived)))
      :: full_history (seen ++ arrived) rest
  end.

(** ** [utils/compiler.js]: reading the compiler's output *)

Module Compiler.

(** [s.includes(needle)] *)
Fixpoint includes (needle s : string) : bool :=
  if String.prefix needle s then true
  else
    match s with
    | EmptyString => false
    | String _ rest => includes needle rest
    end.

(** [output.split('\n')] *)
Definition is_newline (c : ascii) : bool := Nat.eqb (nat_of_ascii c) 10.

Fixpoint split_lines (s : string) : list string :=
  match s with
  | EmptyString => [EmptyString]
  | String c rest =>
      if is_newline c then EmptyString :: split_lines rest
      else push_front c (split_lines rest)
  end.

(** [!line.trim()]: the line holds white space only. Strings are taken
    in UTF-8; the white space of [trim] is tab, line feed, vertical tab,
    form feed, carriage return, space and the code points U+00A0, U+1680,
    U+2000 to U+200A, U+2028, U+2029, U+202F, U+205F, U+3000 and U+FEFF. *)
Fixpoint blank (s : string) : bool :=
  match s with
  | EmptyString => true
  | String c rest =>
      let n := nat_of_ascii c in
      if (Nat.leb 9 n && Nat.leb n 13) || Nat.eqb n 32 then blank rest
      else
        match rest with
        | String c1 rest1 =>
            let n1 := nat_of_ascii c1 in
            if Nat.eqb n 194 then Nat.eqb n1 160 && blank rest1
            else
              match rest1 with
              | String c2 rest2 =>
                  let n2 := nat_of_ascii c2 in
                  if (Nat.eqb n 225 && Nat.eqb n1 154 && Nat.eqb n2 128)
                     || (Nat.eqb n 226 && Nat.eqb n1 128
                         && ((Nat.leb 128 n2 && Nat.leb n2 138)
                             || Nat.eqb n2 168 || Nat.eqb n2 169
                             || Nat.eqb n2 175))
                     || (Nat.eqb n 226 && Nat.eqb n1 129 && Nat.eqb n2 159)
                     || (Nat.eqb n 227 && Nat.eqb n1 128 && Nat.eqb n2 128)
                     || (Nat.eqb n 239 && Nat.eqb n1 187 && Nat.eqb n2 191)
                  then blank rest2
                  else false
              | EmptyString => false
              end
        | EmptyString => false
        end
  end.

(** An entry of [errors]; its [type] is always ['error']. *)
Record compile_error : Type := mkError {
  message : string;
  details : list string
}.

(** The result; a warning is kept as its [message]. *)
Record parsed : Type := mkParsed {
  errors : list compile_error;
  warnings : list string
}.

(** The variables of the loop: [errors], [warnings], [currentError]. *)
Definition loop_state : Type :=
  (list compile_error * list string * option compile_error)%type.

Definition error_line (line : string) : bool :=
  includes "error:" line || includes "Error:" line.

Definition warning_line (line : string) : bool :=
  includes "warning:" line || includes "Warning:" line.

Definition pushed (current : option compile_error) : list compile_error :=
  match current with
  | Some e => [e]
  | None => []
  end.

(** The body of [for (const line of lines)]. *)
Definition line_step (st : loop_state) (line : string) : loop_state :=
  match st with
  | (errs, warns, current) =>
      if error_line line then
        (errs ++ pushed current, warns,
         Some {| message := line; details := [] |})
      else if warning_line line then
        (errs, warns ++ [line], current)
      else
        match current with
        | Some e =>
            if negb (blank line)
            then (errs, warns,
                  Some {| message := message e; details := details e ++ [line] |})
            else st
        | None => st
        end
  end.

Definition parseCompilerOutput (output : string) : parsed :=
  match fold_left line_step (split_lines output) ([], [], None) with
  | (errs, warns, current) =>
      {| errors := errs ++ pushed current; warnings := warns |}
  end.

End Compiler.

(** The lines an error stands for: its message, then its details. *)
Definition error_lines (errs : list Compiler.compile_error) : list string :=
  concat (map (fun e => Compiler.message e :: Compiler.details e) errs).

(** The lines of an output that end up in an error, once an error has
    started: the error lines, and the lines that are neither warnings nor
    blank. *)
Definition kept_line (line : string) : bool :=
  Compiler.error_line line
  || (negb (Compiler.warning_line line) && negb (Compiler.blank line)).

(** The lines from the first error line on. *)
Fixpoint from_first_error (lines : list string) : list string :=
  match lines with
  | [] => []
  | line :: rest =>
      if Compiler.error_line line then line :: rest else from_first_error rest
  end.

(** * Properties *)

(** ** [split] and [parseEventType] *)

Section Split.

Lemma split_cons2 (c c' : ascii) (rest : string) :
  split (String c (String c' rest))
  = if is_colon c && is_colon c'
    then EmptyString :: split rest
    else push_front c (split (String c' rest)).
Proof. reflexivity. Qed.

Lemma split_nonempty (s : string) : split s <> [].
Proof.
  destruct s as [|c [|c' rest]]; [discriminate..|].
  rewrite split_cons2.
  destruct (is_colon c && is_colon c'); [discriminate|].
  destruct (split (String c' rest)); discriminate.
Qed.

Lemma is_colon_true (c : ascii) : is_colon c = true -> c = ":"%char.
Proof. unfold is_colon. apply Ascii.eqb_eq. Qed.

Lemma join_push_front (c : ascii) (l : list string) :
  l <> [] -> join "::" (push_front c l) = String c (join "::" l).
Proof.
  destruct l as [|seg [|seg' rest]]; intros H; [congruence| |]; reflexivity.
Qed.

(** Two-step induction on strings, following the recursion of [split]. *)
Lemma string_ind2 (P : string -> Prop) :
  P EmptyString ->
  (forall c, P (String c EmptyString)) ->
  (forall c c' rest, P rest -> P (String c' rest) -> P (String c (String c' rest))) ->
  forall s, P s.
Proof.
  intros H0 H1 H2 s.
  assert (H : P s /\ forall c, P (String c s)).
  { induction s as [|c' rest [IH1 IH2]].
    - split; [exact H0 | exact H1].
    - split; [apply IH2 | intros c; apply H2; [exact IH1 | apply IH2]]. }
  apply H.
Qed.

(** Joining the segments with the separator gives the string back. *)
Lemma join_split (s : string) : join "::" (split s) = s.
Proof.
  induction s as [|c|c c' rest IH1 IH2] using string_ind2; [reflexivity..|].
  rewrite split_cons2.
  destruct (is_colon c && is_colon c') eqn:E.
  - apply andb_prop in E as [Ec Ec'].
    apply is_colon_true in Ec, Ec'. subst c c'.
    pose proof (split_nonempty rest) as Hne.
    destruct (split rest) as [|seg tl] eqn:Es; [congruence|].
    change (join "::" (EmptyString :: seg :: tl)) with ("::" +++ join "::" (seg :: tl)).
    rewrite IH1. reflexivity.
  - rewrite join_push_front by apply split_nonempty.
    now rewrite IH2.
Qed.

Lemma split_colon_free (s : string) : colon_free s -> split s = [s].
Proof.
  unfold colon_free.
  induction s as [|c|c c' rest IH1 IH2] using string_ind2; intros H; [reflexivity..|].
  rewrite split_cons2.
  simpl in H. inversion H as [|? ? Hc Hrest]; subst.
  rewrite Hc. cbn [andb]. rewrite IH2 by exact Hrest. reflexivity.
Qed.

Lemma split_segment (seg tail : string) :
  colon_free seg -> split (seg +++ "::" +++ tail) = seg :: split tail.
Proof.
  unfold colon_free. induction seg as [|c seg IH]; intros H.
  - reflexivity.
  - simpl in H. inversion H as [|? ? Hc Hrest]; subst.
    specialize (IH Hrest).
    change (String c seg +++ "::" +++ tail) with (String c (seg +++ "::" +++ tail)).
    destruct (seg +++ "::" +++ tail) as [|c' rest] eqn:E.
    + destruct seg; discriminate.
    + rewrite split_cons2, Hc, IH. reflexivity.
Qed.

Lemma split_join (segments : list string) :
  segments <> [] -> Forall colon_free segments ->
  split (join "::" segments) = segments.
Proof.
  induction segments as [|seg [|seg' rest] IH]; intros Hne H; [congruence| |].
  - inversion H; subst. now apply split_colon_free.
  - inversion H as [|? ? Hseg Hrest]; subst.
    change (join "::" (seg :: seg' :: rest))
      with (seg +++ "::" +++ join "::" (seg' :: rest)).
    rewrite split_segment by exact Hseg.
    rewrite IH; [reflexivity | discriminate | exact Hrest].
Qed.

End Split.

(** C7. [parseEventType] on a string that splits on [::] into at least
    three segments returns the structure whose [address], [module] and
    [name] are the first three segments in order, whatever follows them
    (the segments are those of the string: joined with [::] they give it
    back); on a string with fewer than three segments, the empty string
    among them, it returns [null]. *)
Theorem parseEventType_correct (s : string) :
  ((3 <= length (split s))%nat ->
   exists a m n extra,
     split s = a :: m :: n :: extra /\
     s = join "::" (a :: m :: n :: extra) /\
     parseEventType s = Some {| address := a; module := m; name := n |}) /\
  ((length (split s) < 3)%nat -> parseEventType s = None).
Proof.
  unfold parseEventType. split; intros H.
  - destruct (split s) as [|a [|m [|n extra]]] eqn:E; simpl in H; try lia.
    exists a, m, n, extra. split; [reflexivity|]. split; [|reflexivity].
    rewrite <- E. symmetry. apply join_split.
  - apply Nat.ltb_lt in H. now rewrite H.
Qed.

Lemma parseEventType_correct_witness :
  (exists a m n extra,
     split "0xabc::oil_supply_chain::DrillingStartedEvent::extra" = a :: m :: n :: extra /\
     "0xabc::oil_supply_chain::DrillingStartedEvent::extra" = join "::" (a :: m :: n :: extra) /\
     parseEventType "0xabc::oil_supply_chain::DrillingStartedEvent::extra"
       = Some {| address := a; module := m; name := n |}) /\
  parseEventType "onlytwo::parts" = None /\
  parseEventType EmptyString = None.
Proof.
  split; [|split].
  - apply (proj1 (parseEventType_correct
                    "0xabc::oil_supply_chain::DrillingStartedEvent::extra")).
    simpl. lia.
  - apply (proj2 (parseEventType_correct "onlytwo::parts")). simpl. lia.
  - apply (proj2 (parseEventType_correct EmptyString)). simpl. lia.
Defined.

(** Stated on the segments: three or more colon-free segments joined with
    [::] parse to the first three; one or two do not parse. *)
Lemma parseEventType_segments (a m n : string) (extra : list string) :
  Forall colon_free (a :: m :: n :: extra) ->
  parseEventType (join "::" (a :: m :: n :: extra))
  = Some {| address := a; module := m; name := n |}.
Proof.
  intros H. unfold parseEventType.
  rewrite split_join by (discriminate || exact H). reflexivity.
Qed.

Lemma parseEventType_too_short (segments : list string) :
  segments <> [] -> Forall colon_free segments -> (length segments < 3)%nat ->
  parseEventType (join "::" segments) = None.
Proof.
  intros Hne H Hlen. unfold parseEventType.
  rewrite split_join by assumption.
  apply Nat.ltb_lt in Hlen. now rewrite Hlen.
Qed.

(** ** The poller's monad *)

Section Monad.

Lemma stateless_ret {A : Type} (a : A) : stateless (ret a).
Proof. intros w. reflexivity. Qed.

Lemma stateless_lift {A : Type} (r : result A) : stateless (lift r).
Proof. intros w. reflexivity. Qed.

Lemma stateless_log (e : effect) : stateless (log e).
Proof. intros w. reflexivity. Qed.

Lemma stateless_bind {A B : Type} (m : M A) (k : A -> M B) :
  stateless m -> (forall a, stateless (k a)) -> stateless (bind m k).
Proof.
  intros Hm Hk w. unfold bind.
  rewrite (Hm w).
  destruct (m JNull) as [[[a|e] w0] out0]; cbn [fst snd]; [|reflexivity].
  rewrite (Hk a w), (Hk a w0).
  destruct (k a JNull) as [[r w1] out1]. reflexivity.
Qed.

Lemma stateless_for_of (items : list value) (body : value -> M unit) :
  (forall x, stateless (body x)) -> stateless (for_of items body).
Proof.
  intros Hb. induction items as [|x rest IH]; cbn [for_of].
  - apply stateless_ret.
  - apply stateless_bind; [apply Hb | intros _; exact IH].
Qed.

Lemma stateless_if {A : Type} (b : bool) (m1 m2 : M A) :
  stateless m1 -> stateless m2 -> stateless (if b then m1 else m2).
Proof. destruct b; auto. Qed.

End Monad.

Create HintDb stateless.

#[local] Hint Resolve stateless_ret stateless_lift stateless_log stateless_for_of
  stateless_if : stateless.

Section Poller.

Variable ch : Chalk.
Variable opts : poll_options.

Lemma stateless_event_body (evt : value) : stateless (event_body ch opts evt).
Proof.
  unfold event_body.
  apply stateless_bind; [auto with stateless|]; intros ty.
  apply stateless_bind; [auto with stateless|]; intros [p|]; [|auto with stateless].
  apply stateless_if; [auto with stateless|].
  apply stateless_bind; [auto with stateless|]; intros skip.
  apply stateless_if; [auto with stateless|].
  repeat (apply stateless_bind; [auto with stateless|]; intros ?).
  auto with stateless.
Qed.

Lemma stateless_events (events : list value) :
  stateless (for_of events (event_body ch opts)).
Proof. apply stateless_for_of, stateless_event_body. Qed.

(** *** Versions and [Number] *)

Lemma plain_version_number (v : value) (z : Z) :
  plain_version v = Some z -> ToNumber v = Ok (Num z).
Proof.
  destruct v as [| |b|n|s|l|f]; cbn [plain_version]; try discriminate.
  - destruct (safe_integer n); [|discriminate]. now intros [= ->].
  - destruct s as [|c rest]; [discriminate|].
    cbn [ToNumber]. unfold StringToNumber.
    destruct (decimal_value 0 (String c rest)) as [n|]; [|discriminate].
    destruct (safe_integer n) eqn:Es; [|discriminate]. intros [= ->].
    unfold safe_integer in Es. apply andb_prop in Es as [_ Es].
    unfold round_double. now rewrite Es.
Qed.

Lemma version_of_get (txn : value) (z : Z) :
  version_of txn = Some z ->
  get txn "version" = Ok (version_value txn) /\
  plain_version (version_value txn) = Some z.
Proof.
  unfold version_of, version_value.
  destruct txn as [| |b|n|s|l|fields]; try discriminate.
  cbn [get]. destruct (own "version" fields) as [v|]; [|discriminate].
  auto.
Qed.

Lemma already_seen_plain (v w : value) (z zw : Z) :
  plain_version v = Some z -> plain_version w = Some zw ->
  already_seen v w = Ok (z <=? zw).
Proof.
  intros Hv Hw. unfold already_seen.
  rewrite (plain_version_number _ _ Hv), (plain_version_number _ _ Hw).
  destruct w; try reflexivity; discriminate.
Qed.

(** *** One transaction *)

(** A transaction at or below the watermark is skipped: nothing is logged
    and the watermark stays. *)
Lemma txn_body_skip (txn w : value) (z zw : Z) :
  version_of txn = Some z -> level w = Some zw -> z <= zw ->
  txn_body ch opts txn w = (Ok tt, w, []).
Proof.
  intros Hv Hw Hle. apply version_of_get in Hv as [Hg Hp].
  unfold txn_body, bind at 1. unfold lift at 1. rewrite Hg.
  unfold bind at 1. unfold read_lastSeenVersion.
  unfold bind at 1. unfold lift at 1.
  rewrite (already_seen_plain _ _ _ _ Hp Hw).
  apply Z.leb_le in Hle. rewrite Hle. reflexivity.
Qed.

(** A transaction above the watermark, or met while the watermark is
    unset, has its events processed; the watermark moves to its version
    when the inner loop returns, and stays when it throws. *)
Lemma txn_body_fresh (txn w : value) (z : Z) :
  version_of txn = Some z ->
  (w = JNull \/ exists zw, level w = Some zw /\ zw < z) ->
  txn_body ch opts txn w
  = match tx_run ch opts txn with
    | (Ok _, out) => (Ok tt, version_value txn, out)
    | (Throw e, out) => (Throw e, w, out)
    end.
Proof.
  intros Hv Hw. apply version_of_get in Hv as [Hg Hp].
  unfold txn_body, bind at 1. unfold lift at 1. rewrite Hg.
  unfold bind at 1. unfold read_lastSeenVersion.
  unfold bind at 1. unfold lift at 1.
  assert (Hseen : already_seen (version_value txn) w = Ok false).
  { destruct Hw as [-> | (zw & Hzw & Hlt)]; [reflexivity|].
    rewrite (already_seen_plain _ _ _ _ Hp Hzw).
    f_equal. apply Z.leb_gt. exact Hlt. }
  rewrite Hseen. unfold tx_run, bind, lift.
  destruct (get txn "events") as [evs|e]; [|reflexivity].
  destruct (iterate "events" (or_else evs (JArr []))) as [events|e]; [|reflexivity].
  rewrite (stateless_events events w).
  destruct (for_of events (event_body ch opts) JNull) as [[[[]|e] w0] out];
    cbn [fst snd app write_lastSeenVersion]; rewrite ?app_nil_r; reflexivity.
Qed.

(** *** The order on watermark levels *)

Lemma level_le_refl (a : option Z) : level_le a a.
Proof. destruct a; simpl; lia. Qed.

Lemma level_le_trans (a b c : option Z) :
  level_le a b -> level_le b c -> level_le a c.
Proof. destruct a, b, c; simpl; try tauto; lia. Qed.

Lemma level_max_assoc (a b c : option Z) :
  level_max (level_max a b) c = level_max a (level_max b c).
Proof. destruct a, b, c; simpl; try reflexivity. now rewrite Z.max_assoc. Qed.

Lemma level_le_max_l (a b : option Z) : level_le a (level_max a b).
Proof. destruct a, b; simpl; lia. Qed.

Lemma level_le_max_r (a b : option Z) : level_le b (level_max a b).
Proof. destruct a, b; simpl; lia. Qed.

Lemma below_le (a b : option Z) (txn : value) :
  level_le a b -> below a txn = true -> below b txn = true.
Proof.
  unfold below. destruct (version_of txn) as [z|]; [|discriminate].
  destruct a as [x|]; [|discriminate]. destruct b as [y|]; simpl; [|tauto].
  intros Hxy Hz. apply Z.leb_le in Hz. apply Z.leb_le. lia.
Qed.

(** The cases of the guard on a versioned transaction. *)
Lemma txn_body_cases (txn w : value) :
  versioned txn -> watermark w ->
  (below (level w) txn = true /\ txn_body ch opts txn w = (Ok tt, w, []))
  \/
  (below (level w) txn = false /\
   txn_body ch opts txn w
   = match tx_run ch opts txn with
     | (Ok _, out) => (Ok tt, version_value txn, out)
     | (Throw e, out) => (Throw e, w, out)
     end).
Proof.
  intros Hv Hw. unfold versioned in Hv.
  destruct (version_of txn) as [z|] eqn:Ez; [clear Hv|congruence].
  unfold below. rewrite Ez.
  destruct (level w) as [zw|] eqn:Ew.
  - destruct (Z.leb_spec z zw) as [Hle|Hgt].
    + left. split; [reflexivity|]. now apply (txn_body_skip txn w z zw).
    + right. split; [reflexivity|]. apply (txn_body_fresh txn w z Ez).
      right. now exists zw.
  - right. split; [reflexivity|]. apply (txn_body_fresh txn w z Ez).
    left. destruct Hw as [Hw|Hw]; [exact Hw|]. unfold level in Ew. congruence.
Qed.

Lemma below_false_max (w : value) (txn : value) (z : Z) :
  version_of txn = Some z -> below (level w) txn = false ->
  level_max (level w) (Some z) = Some z.
Proof.
  unfold below. intros ->. destruct (level w) as [zw|]; [|reflexivity].
  intros H. apply Z.leb_gt in H. simpl. f_equal. lia.
Qed.

Lemma below_true_max (w : value) (txn : value) :
  below (level w) txn = true ->
  level_max (level w) (version_of txn) = level w.
Proof.
  unfold below. destruct (version_of txn) as [z|]; [|discriminate].
  destruct (level w) as [zw|]; [|discriminate].
  intros H. apply Z.leb_le in H. simpl. f_equal. lia.
Qed.

(** One transaction never lowers the watermark; when its body returns the
    watermark is the higher of the old level and its version. *)
Lemma txn_body_level (txn w : value) (r : result unit) (w' : value)
    (out : list effect) :
  versioned txn -> watermark w ->
  txn_body ch opts txn w = (r, w', out) ->
  watermark w' /\ level_le (level w) (level w') /\
  (forall u, r = Ok u -> level w' = level_max (level w) (version_of txn)).
Proof.
  intros Hv Hw H.
  destruct (txn_body_cases txn w Hv Hw) as [[Hb E]|[Hb E]]; rewrite E in H.
  - injection H as <- <- <-. repeat split; [exact Hw | apply level_le_refl |].
    intros _ _. symmetry. now apply below_true_max.
  - unfold versioned in Hv.
    destruct (version_of txn) as [z|] eqn:Ez; [clear Hv|congruence].
    destruct (version_of_get txn z Ez) as [_ Hp].
    pose proof (below_false_max w txn z Ez Hb) as Hmax.
    destruct (tx_run ch opts txn) as [[u|e] o]; injection H as <- <- <-.
    + unfold level at 2 3. rewrite Hp. repeat split.
      * right. congruence.
      * rewrite <- Hmax. apply level_le_max_l.
      * intros _ _. now rewrite Hmax.
    + repeat split; [exact Hw | apply level_le_refl | discriminate].
Qed.

(** *** The loop over the transactions *)

Lemma for_of_cons (x : value) (rest : list value) (body : value -> M unit)
    (w : value) :
  for_of (x :: rest) body w
  = match body x w with
    | (Ok _, w1, out1) =>
        match for_of rest body w1 with
        | (r, w2, out2) => (r, w2, out1 ++ out2)
        end
    | (Throw e, w1, out1) => (Throw e, w1, out1)
    end.
Proof. reflexivity. Qed.

Lemma txns_level (l : list value) :
  Forall versioned l ->
  forall (w : value) (r : result unit) (w' : value) (out : list effect),
  watermark w ->
  for_of l (txn_body ch opts) w = (r, w', out) ->
  watermark w' /\ level_le (level w) (level w') /\
  (forall u, r = Ok u -> level w' = level_max (level w) (highest l)).
Proof.
  induction 1 as [|txn rest Hv Hrest IH]; intros w r w' out Hw H.
  - injection H as <- <- <-. repeat split; [exact Hw | apply level_le_refl |].
    intros _ _. simpl. now destruct (level w).
  - rewrite for_of_cons in H.
    destruct (txn_body ch opts txn w) as [[[u|e] w1] out1] eqn:E1.
    + destruct (txn_body_level _ _ _ _ _ Hv Hw E1) as (Hw1 & Hle1 & Hmax1).
      destruct (for_of rest (txn_body ch opts) w1) as [[r2 w2] out2] eqn:E2.
      injection H as <- <- <-.
      destruct (IH _ _ _ _ Hw1 E2) as (Hw2 & Hle2 & Hmax2).
      repeat split; [exact Hw2 | eapply level_le_trans; eassumption |].
      intros u' Hr. rewrite (Hmax2 u' Hr), (Hmax1 u eq_refl).
      cbn [highest fold_right]. apply level_max_assoc.
    + injection H as <- <- <-.
      destruct (txn_body_level _ _ _ _ _ Hv Hw E1) as (Hw1 & Hle1 & _).
      repeat split; [exact Hw1 | exact Hle1 | discriminate].
Qed.

(** Transactions at or below the watermark can be taken out of the list
    without changing what the loop does. *)
Lemma txns_drop_below (keep : value -> bool) (l : list value) :
  Forall versioned l ->
  forall w : value,
  watermark w ->
  (forall txn, In txn l -> keep txn = false -> below (level w) txn = true) ->
  for_of l (txn_body ch opts) w
  = for_of (filter keep l) (txn_body ch opts) w.
Proof.
  induction 1 as [|txn rest Hv Hrest IH]; intros w Hw Hk; [reflexivity|].
  cbn [filter]. destruct (keep txn) eqn:Ek.
  - rewrite !for_of_cons.
    destruct (txn_body ch opts txn w) as [[[u|e] w1] out1] eqn:E1; [|reflexivity].
    destruct (txn_body_level _ _ _ _ _ Hv Hw E1) as (Hw1 & Hle1 & _).
    rewrite (IH w1 Hw1); [reflexivity|].
    intros t Ht Hkt. eapply below_le; [exact Hle1|]. apply Hk; [now right | exact Hkt].
  - rewrite for_of_cons.
    destruct (txn_body_cases txn w Hv Hw) as [[Hb E]|[Hb E]].
    + rewrite E. rewrite (IH w Hw).
      * now destruct (for_of (filter keep rest) (txn_body ch opts) w) as [[r w2] o2].
      * intros t Ht Hkt. apply Hk; [now right | exact Hkt].
    + rewrite (Hk txn (or_introl eq_refl) Ek) in Hb. discriminate.
Qed.

End Poller.

Section Cycles.

Variable ch : Chalk.
Variable opts : poll_options.

(** *** One poll cycle *)

Lemma try_block_resolved (data w : value) :
  try_block ch opts (Resolved data) w
  = for_of (ordered data) (txn_body ch opts) w.
Proof.
  unfold try_block, bind, lift. cbn [await].
  now destruct (for_of (ordered data) (txn_body ch opts) w) as [[r w'] out].
Qed.

Lemma poll_cycle_unfold (r : response) (w : value) :
  poll_cycle ch opts r w
  = match try_block ch opts r w with
    | (Ok _, w1, out) => (Ok tt, w1, out ++ [Sleep (intervalMs opts)])
    | (Throw e, w1, out) =>
        (Ok tt, w1,
         out ++ [Warning ("Polling error: " +++ message e); Sleep (intervalMs opts)])
    end.
Proof.
  unfold poll_cycle, bind, try_catch, log.
  destruct (try_block ch opts r w) as [[[u|e] w1] out]; [reflexivity|].
  now rewrite <- app_assoc.
Qed.

Lemma poll_cycle_returns (r : response) (w : value) :
  fst (fst (poll_cycle ch opts r w)) = Ok tt.
Proof.
  rewrite poll_cycle_unfold.
  now destruct (try_block ch opts r w) as [[[u|e] w1] out].
Qed.

Lemma poll_cycle_watermark (r : response) (w : value) :
  watermark_after (poll_cycle ch opts r) w
  = watermark_after (try_block ch opts r) w.
Proof.
  unfold watermark_after. rewrite poll_cycle_unfold.
  now destruct (try_block ch opts r w) as [[[u|e] w1] out].
Qed.

Lemma poll_loop_cons (r : response) (rest : list response) (w : value) :
  poll_loop ch opts (r :: rest) w
  = match poll_loop ch opts rest (watermark_after (poll_cycle ch opts r) w) with
    | (res, w', out) => (res, w', effects_of (poll_cycle ch opts r) w ++ out)
    end.
Proof.
  cbn [poll_loop]. unfold bind at 1, watermark_after, effects_of.
  pose proof (poll_cycle_returns r w) as H.
  destruct (poll_cycle ch opts r w) as [[[u|e] w1] out]; [reflexivity|discriminate].
Qed.

Lemma poll_loop_app (a1 a2 : list response) (w : value) :
  watermark_after (poll_loop ch opts (a1 ++ a2)) w
  = watermark_after (poll_loop ch opts a2)
      (watermark_after (poll_loop ch opts a1) w).
Proof.
  revert w. induction a1 as [|r rest IH]; intros w; [reflexivity|].
  cbn [app]. unfold watermark_after at 1 3. rewrite !poll_loop_cons.
  specialize (IH (watermark_after (poll_cycle ch opts r) w)).
  unfold watermark_after at 1 3 4 in IH.
  destruct (poll_loop ch opts (rest ++ a2) _) as [[r1 w1] o1].
  destruct (poll_loop ch opts rest _) as [[r2 w2] o2].
  exact IH.
Qed.

(** The loop never ends by an exception, whatever the gateway answers. *)
Lemma poll_loop_returns (answers : list response) (w : value) :
  fst (fst (poll_loop ch opts answers w)) = Ok tt.
Proof.
  revert w. induction answers as [|r rest IH]; intros w; [reflexivity|].
  rewrite poll_loop_cons.
  specialize (IH (watermark_after (poll_cycle ch opts r) w)).
  now destruct (poll_loop ch opts rest _) as [[r1 w1] o1].
Qed.

(** *** Levels along a run *)

Lemma level_max_comm (a b : option Z) : level_max a b = level_max b a.
Proof. destruct a, b; simpl; try reflexivity. now rewrite Z.max_comm. Qed.

Lemma level_max_none_r (a : option Z) : level_max a None = a.
Proof. now destruct a. Qed.

Lemma highest_app (l1 l2 : list value) :
  highest (l1 ++ l2) = level_max (highest l1) (highest l2).
Proof.
  induction l1 as [|t rest IH]; [reflexivity|].
  cbn [app highest fold_right]. fold (highest (rest ++ l2)). fold (highest rest).
  now rewrite IH, level_max_assoc.
Qed.

Lemma highest_rev (l : list value) : highest (rev l) = highest l.
Proof.
  induction l as [|t rest IH]; [reflexivity|].
  cbn [rev]. rewrite highest_app, IH.
  cbn [highest fold_right]. fold (highest rest).
  now rewrite level_max_none_r, level_max_comm.
Qed.

Lemma try_block_level (r : response) (w : value) :
  versioned_answer r -> watermark w ->
  watermark (watermark_after (try_block ch opts r) w) /\
  level_le (level w) (level (watermark_after (try_block ch opts r) w)) /\
  (forall batch, r = Resolved (JArr batch) -> returns (try_block ch opts r) w ->
     level (watermark_after (try_block ch opts r) w)
     = level_max (level w) (highest batch)).
Proof.
  intros Hr Hw. unfold watermark_after, returns.
  destruct r as [data|e].
  - rewrite try_block_resolved.
    destruct data as [| |b|n|s|batch|f];
      try (cbn; repeat split; [exact Hw | apply level_le_refl | discriminate]).
    cbn [ordered versioned_answer] in *.
    destruct (for_of (rev batch) (txn_body ch opts) w) as [[res w'] out] eqn:E.
    assert (Hrev : Forall versioned (rev batch)).
    { apply Forall_forall. intros t Ht. apply in_rev in Ht.
      revert t Ht. now apply Forall_forall. }
    destruct (txns_level ch opts (rev batch) Hrev w res w' out Hw E)
      as (Hw' & Hle & Hmax).
    cbn [fst snd]. repeat split; [exact Hw' | exact Hle |].
    intros batch' [= <-] [u Hu]. rewrite (Hmax u Hu). now rewrite highest_rev.
  - cbn. repeat split; [exact Hw | apply level_le_refl | discriminate].
Qed.

Lemma poll_loop_level (answers : list response) :
  Forall versioned_answer answers ->
  forall w : value, watermark w ->
  watermark (watermark_after (poll_loop ch opts answers) w) /\
  level_le (level w) (level (watermark_after (poll_loop ch opts answers) w)).
Proof.
  induction 1 as [|r rest Hr Hrest IH]; intros w Hw.
  - split; [exact Hw | apply level_le_refl].
  - change (r :: rest) with ([r] ++ rest). rewrite poll_loop_app.
    assert (E : watermark_after (poll_loop ch opts [r]) w
                = watermark_after (try_block ch opts r) w).
    { rewrite <- poll_cycle_watermark. unfold watermark_after.
      rewrite poll_loop_cons. reflexivity. }
    rewrite E.
    destruct (try_block_level r w Hr Hw) as (Hw1 & Hle1 & _).
    destruct (IH _ Hw1) as (Hw2 & Hle2).
    split; [exact Hw2 | eapply level_le_trans; eassumption].
Qed.


End Cycles.

(** ** The watermark along a run *)

Section Watermark.

Variable ch : Chalk.
Variable opts : poll_options.



Lemma watermark_initial : watermark initial_lastSeenVersion.
Proof. now left. Qed.

(** A cycle on a batch does what it would do on the batch without the
    transactions at or below the watermark. *)
Lemma poll_cycle_drop_below (keep : value -> bool) (batch : list value)
    (w : value) :
  Forall versioned batch -> watermark w ->
  (forall txn, In txn batch -> keep txn = false -> below (level w) txn = true) ->
  poll_cycle ch opts (Resolved (JArr batch)) w
  = poll_cycle ch opts (Resolved (JArr (filter keep batch))) w.
Proof.
  intros Hv Hw Hk. rewrite !poll_cycle_unfold, !try_block_resolved.
  cbn [ordered]. rewrite <- filter_rev.
  rewrite (txns_drop_below ch opts keep (rev batch)); [reflexivity| |exact Hw|].
  - apply Forall_forall. intros t Ht. apply in_rev in Ht.
    revert t Ht. now apply Forall_forall.
  - intros t Ht. apply in_rev in Ht. now apply Hk.
Qed.

End Watermark.




(** C1. No duplication across poll cycles, for an account whose
    transactions carry plain versions. Once a cycle has gone through a
    batch, the watermark is at or above the batch's highest version in
    every later cycle of the run, whatever came between; and a cycle
    treats the transactions at or below its watermark, those of that batch
    among them, as if the gateway had not returned them: it logs what it
    would log without them and leaves the same watermark. With cycle 1 on
    versions 10, 11 and cycle 2 on 10, 11, 12 only the events of version 12
    are emitted in cycle 2. *)
Theorem no_reemission (ch : Chalk) (opts : poll_options)
    (before : list response) (batch1 : list value)
    (between : list response) (batch2 : list value) :
  Forall versioned_answer before -> Forall versioned batch1 ->
  Forall versioned_answer between -> Forall versioned batch2 ->
  let w0 := watermark_after (poll_loop ch opts before) initial_lastSeenVersion in
  returns (try_block ch opts (Resolved (JArr batch1))) w0 ->
  let w1 := watermark_after (poll_cycle ch opts (Resolved (JArr batch1))) w0 in
  let w2 := watermark_after (poll_loop ch opts between) w1 in
  level_le (highest batch1) (level w2) /\
  poll_cycle ch opts (Resolved (JArr batch2)) w2
  = poll_cycle ch opts (Resolved (JArr (fresh (level w2) batch2))) w2 /\
  poll_cycle ch opts (Resolved (JArr batch2)) w2
  = poll_cycle ch opts (Resolved (JArr (fresh (highest batch1) batch2))) w2.
Proof.
  intros Hbefore Hb1 Hbetween Hb2 w0 Hret w1 w2.
  assert (Hw0 : watermark w0)
    by now apply poll_loop_level; [|apply watermark_initial].
  destruct (try_block_level ch opts (Resolved (JArr batch1)) w0 Hb1 Hw0)
    as (Hw1 & _ & Hmax).
  specialize (Hmax batch1 eq_refl Hret).
  rewrite <- poll_cycle_watermark in Hw1, Hmax. fold w1 in Hw1, Hmax.
  destruct (poll_loop_level ch opts between Hbetween w1 Hw1) as (Hw2 & Hle).
  fold w2 in Hw2, Hle.
  assert (Hhigh : level_le (highest batch1) (level w2)).
  { eapply level_le_trans; [|exact Hle]. rewrite Hmax. apply level_le_max_r. }
  split; [exact Hhigh|]. split.
  - apply poll_cycle_drop_below; [exact Hb2 | exact Hw2 |].
    intros txn _ Hk. now apply negb_false_iff in Hk.
  - apply poll_cycle_drop_below; [exact Hb2 | exact Hw2 |].
    intros txn _ Hk. apply negb_false_iff in Hk.
    eapply below_le; [exact Hhigh | exact Hk].
Qed.

Lemma no_reemission_witness :
  Forall versioned_answer [] /\
  Forall versioned [Sample.t11; Sample.t10] /\
  Forall versioned [Sample.t12; Sample.t11; Sample.t10] /\
  returns (try_block plain_chalk Sample.defaults
             (Resolved (JArr [Sample.t11; Sample.t10]))) initial_lastSeenVersion /\
  poll_cycle plain_chalk Sample.defaults
    (Resolved (JArr [Sample.t12; Sample.t11; Sample.t10])) (JStr "11")
  = poll_cycle plain_chalk Sample.defaults (Resolved (JArr [Sample.t12])) (JStr "11").
Proof.
  assert (H1 : Forall versioned [Sample.t11; Sample.t10])
    by (repeat constructor; discriminate).
  assert (H2 : Forall versioned [Sample.t12; Sample.t11; Sample.t10])
    by (repeat constructor; discriminate).
  assert (H3 : returns (try_block plain_chalk Sample.defaults
                          (Resolved (JArr [Sample.t11; Sample.t10])))
                 initial_lastSeenVersion)
    by (exists tt; vm_compute; reflexivity).
  split; [constructor|]. split; [exact H1|]. split; [exact H2|].
  split; [exact H3|].
  exact (proj2 (proj2
           (no_reemission plain_chalk Sample.defaults [] [Sample.t11; Sample.t10]
              [] [Sample.t12; Sample.t11; Sample.t10]
              (Forall_nil _) H1 (Forall_nil _) H2 H3))).
Defined.

(** The two cycles of the example, run: cycle 1 emits the events of
    versions 10 and 11 in that order, cycle 2 those of version 12 only. *)
Example two_cycles_10_11_12 :
  poll_loop plain_chalk Sample.defaults
    [Resolved (JArr [Sample.t11; Sample.t10]);
     Resolved (JArr [Sample.t12; Sample.t11; Sample.t10])]
    initial_lastSeenVersion
  = (Ok tt, JStr "12",
     [NewLine;
      Success "[DrillingStartedEvent] batch BATCH-10 — drilling started at Field-A • qty 100 bbl";
      NewLine;
      Success "[DeliveryEvent] batch BATCH-10 — delivered to Port-B";
      Sleep (Num 5000);
      NewLine;
      Success "[DrillingStartedEvent] batch BATCH-12 — drilling started at Field-C • qty 250 bbl";
      NewLine;
      Success "[DeliveryEvent] batch BATCH-12 — delivered to Port-D";
      Sleep (Num 5000)]).
Proof. vm_compute. reflexivity. Qed.

(** C6. A rejected fetch leaves the watermark as it was, logs one warning
    with the error's message and goes to the wait; the loop then takes the
    next answer, and no sequence of answers makes it end by an
    exception. *)
Theorem fetch_failure_recoverable (ch : Chalk) (opts : poll_options)
    (e : exn) (w : value) (rest : list response) :
  poll_cycle ch opts (Rejected e) w
  = (Ok tt, w,
     [Warning ("Polling error: " +++ message e); Sleep (intervalMs opts)]) /\
  poll_loop ch opts (Rejected e :: rest) w
  = (let '(r, w', out) := poll_loop ch opts rest w in
     (r, w', [Warning ("Polling error: " +++ message e); Sleep (intervalMs opts)]
             ++ out)) /\
  (forall answers, fst (fst (poll_loop ch opts answers w)) = Ok tt).
Proof.
  split; [reflexivity|]. split.
  - rewrite poll_loop_cons. reflexivity.
  - intros answers. apply poll_loop_returns.
Qed.

(** ** Order of emission *)

Section Sorting.

Variable A : Type.

Lemma StronglySorted_snoc (R : A -> A -> Prop) (l : list A) (a : A) :
  StronglySorted R l -> Forall (fun x => R x a) l -> StronglySorted R (l ++ [a]).
Proof.
  induction 1 as [|x l Hl IH Hx]; intros Ha; cbn [app].
  - repeat constructor.
  - inversion Ha as [|? ? Hxa Hla]; subst. constructor.
    + now apply IH.
    + apply Forall_app. split; [exact Hx | now constructor].
Qed.

Lemma StronglySorted_snoc_inv (R : A -> A -> Prop) (l : list A) (a : A) :
  StronglySorted R (l ++ [a]) -> Forall (fun x => R x a) l.
Proof.
  induction l as [|x l IH]; cbn [app]; intros H; [constructor|].
  apply StronglySorted_inv in H as [Hl Hx]. constructor.
  - apply Forall_app in Hx as [_ Hx]. now inversion Hx.
  - now apply IH.
Qed.

Lemma StronglySorted_rev (R : A -> A -> Prop) (l : list A) :
  StronglySorted R l -> StronglySorted (fun a b => R b a) (rev l).
Proof.
  induction 1 as [|x l Hl IH Hx]; cbn [rev]; [constructor|].
  apply StronglySorted_snoc; [exact IH|].
  apply Forall_rev. exact Hx.
Qed.


End Sorting.

Section Emission.

Variable ch : Chalk.
Variable opts : poll_options.



Lemma events_output (events : list value) (w : value) (u : unit) (w' : value)
    (out : list effect) :
  for_of events (event_body ch opts) w = (Ok u, w', out) ->
  out = concat (map (event_output ch opts) events) /\
  Forall (fun evt => returns (event_body ch opts evt) JNull) events.
Proof.
  revert w out. induction events as [|evt rest IH]; intros w out H.
  - injection H as <- <- <-. now split.
  - rewrite for_of_cons in H. cbn [map concat].
    rewrite (stateless_event_body ch opts evt w) in H.
    assert (Hhead : forall u1 w1 out1,
              event_body ch opts evt JNull = (Ok u1, w1, out1) ->
              returns (event_body ch opts evt) JNull /\
              event_output ch opts evt = out1).
    { intros u1 w1 out1 E. unfold returns, event_output. rewrite E.
      split; [now exists u1 | reflexivity]. }
    destruct (event_body ch opts evt JNull) as [[[u1|e] w1] out1];
      cbn [fst snd] in H; [|discriminate].
    destruct (Hhead u1 w1 out1 eq_refl) as [Hret ->].
    destruct (for_of rest (event_body ch opts) w) as [[r2 w2] out2] eqn:E2.
    injection H as -> <- <-. destruct (IH _ _ E2) as [-> Hall].
    split; [reflexivity|]. now constructor.
Qed.

Lemma tx_run_output (txn : value) (u : unit) (out : list effect) :
  tx_run ch opts txn = (Ok u, out) ->
  out = tx_output ch opts txn /\
  Forall (fun evt => returns (event_body ch opts evt) JNull) (events_of txn).
Proof.
  unfold tx_run, tx_output, events_of, bind, lift.
  destruct (get txn "events") as [evs|e]; [|discriminate].
  destruct (iterate "events" (or_else evs (JArr []))) as [events|e]; [|discriminate].
  destruct (for_of events (event_body ch opts) JNull) as [[r w] o] eqn:E.
  cbn [app]. intros [= -> <-]. exact (events_output _ _ _ _ _ E).
Qed.

Lemma older_below (a b : value) (z : Z) :
  older a b -> version_of a = Some z -> below (Some z) b = false.
Proof.
  unfold older, below. intros H Ha. rewrite Ha in H.
  destruct (version_of b) as [y|]; [|reflexivity]. apply Z.leb_gt. exact H.
Qed.

Lemma older_below_true (a b : value) :
  older a b -> below (version_of b) a = true.
Proof.
  unfold older, below. destruct (version_of a) as [x|]; [|tauto].
  destruct (version_of b) as [y|]; [|tauto]. intros H. apply Z.leb_le. lia.
Qed.


End Emission.



(** The cycle of the example: server order 12, 11, 10; emitted 10, 11, 12. *)
Example server_order_12_11_10 :
  poll_cycle plain_chalk Sample.defaults
    (Resolved (JArr [Sample.t12; Sample.t11; Sample.t10])) initial_lastSeenVersion
  = (Ok tt, JStr "12",
     [NewLine;
      Success "[DrillingStartedEvent] batch BATCH-10 — drilling started at Field-A • qty 100 bbl";
      NewLine;
      Success "[DeliveryEvent] batch BATCH-10 — delivered to Port-B";
      NewLine;
      Success "[DrillingStartedEvent] batch BATCH-12 — drilling started at Field-C • qty 250 bbl";
      NewLine;
      Success "[DeliveryEvent] batch BATCH-12 — delivered to Port-D";
      Sleep (Num 5000)]).
Proof. vm_compute. reflexivity. Qed.

(** C10. A batch returned oldest-first: its last record, the newest, is
    processed first; when it is above the watermark and its events are
    processed to the end, the cycle emits its events only and the
    watermark becomes its version. The other records of the batch are at
    or below that version, and every later cycle of the run drops the
    transactions at or below it: their events are emitted neither in this
    cycle nor in a later one. *)
Theorem oldest_first_drops (ch : Chalk) (opts : poll_options)
    (old : list value) (newest w : value) (out : list effect)
    (later : list response) (batch2 : list value) :
  Forall versioned (old ++ [newest]) -> watermark w ->
  oldest_first (old ++ [newest]) ->
  below (level w) newest = false ->
  tx_run ch opts newest = (Ok tt, out) ->
  Forall versioned_answer later -> Forall versioned batch2 ->
  try_block ch opts (Resolved (JArr (old ++ [newest]))) w
  = (Ok tt, version_value newest, out) /\
  Forall (fun txn => below (version_of newest) txn = true) old /\
  (let w2 := watermark_after (poll_loop ch opts later) (version_value newest) in
   poll_cycle ch opts (Resolved (JArr batch2)) w2
   = poll_cycle ch opts (Resolved (JArr (fresh (version_of newest) batch2))) w2).
Proof.
  intros Hv Hw Hs Hb Hrun Hlater Hb2.
  apply Forall_app in Hv as [Hvold Hvnew].
  apply Forall_cons_iff in Hvnew as [Hvnew _].
  assert (Hold : Forall (fun txn => below (version_of newest) txn = true) old).
  { apply StronglySorted_snoc_inv in Hs.
    apply Forall_forall. intros t Ht. apply older_below_true.
    revert t Ht. now apply Forall_forall. }
  pose proof Hvnew as Hz. unfold versioned in Hz.
  destruct (version_of newest) as [z|] eqn:Ez; [clear Hz|congruence].
  destruct (version_of_get newest z Ez) as [_ Hp].
  assert (Hw1 : watermark (version_value newest)) by (right; congruence).
  assert (Hl1 : level (version_value newest) = Some z) by exact Hp.
  split; [|split; [exact Hold|]].
  - rewrite try_block_resolved. cbn [ordered]. rewrite rev_app_distr.
    cbn [rev app]. rewrite for_of_cons.
    destruct (txn_body_cases ch opts newest w Hvnew Hw) as [[Hb' _]|[_ E]];
      [congruence|].
    rewrite E, Hrun.
    rewrite (txns_drop_below ch opts (fun _ => false) (rev old));
      [| now apply Forall_rev | exact Hw1 |].
    + assert (Hnil : filter (fun _ : value => false) (rev old) = []).
      { induction (rev old) as [|x l IHl]; [reflexivity | exact IHl]. }
      rewrite Hnil. cbn. now rewrite app_nil_r.
    + intros t Ht _. rewrite Hl1. apply in_rev in Ht.
      revert t Ht. now apply Forall_forall.
  - intros w2.
    destruct (poll_loop_level ch opts later Hlater _ Hw1) as [Hw2 Hle].
    fold w2 in Hw2, Hle. rewrite Hl1 in Hle.
    apply poll_cycle_drop_below; [exact Hb2 | exact Hw2 |].
    intros t _ Hk. apply negb_false_iff in Hk.
    eapply below_le; [exact Hle | exact Hk].
Qed.

Lemma oldest_first_drops_witness :
  Forall versioned ([Sample.t10; Sample.t11] ++ [Sample.t12]) /\
  watermark JNull /\
  oldest_first ([Sample.t10; Sample.t11] ++ [Sample.t12]) /\
  below (level JNull) Sample.t12 = false /\
  try_block plain_chalk Sample.defaults
    (Resolved (JArr [Sample.t10; Sample.t11; Sample.t12])) JNull
  = (Ok tt, JStr "12",
     [NewLine;
      Success "[DrillingStartedEvent] batch BATCH-12 — drilling started at Field-C • qty 250 bbl";
      NewLine;
      Success "[DeliveryEvent] batch BATCH-12 — delivered to Port-D"]) /\
  poll_cycle plain_chalk Sample.defaults
    (Resolved (JArr [Sample.t10; Sample.t11; Sample.t12])) (JStr "12")
  = poll_cycle plain_chalk Sample.defaults (Resolved (JArr [])) (JStr "12").
Proof.
  assert (H1 : Forall versioned ([Sample.t10; Sample.t11] ++ [Sample.t12]))
    by (repeat constructor; discriminate).
  assert (H2 : oldest_first ([Sample.t10; Sample.t11] ++ [Sample.t12]))
    by (repeat constructor; vm_compute; reflexivity).
  destruct (oldest_first_drops plain_chalk Sample.defaults
              [Sample.t10; Sample.t11] Sample.t12 JNull
              (snd (tx_run plain_chalk Sample.defaults Sample.t12))
              [] [Sample.t10; Sample.t11; Sample.t12]
              H1 (or_introl eq_refl) H2 eq_refl eq_refl (Forall_nil _) H1)
    as (Hcycle & _ & Hlater).
  split; [exact H1|]. split; [now left|]. split; [exact H2|].
  split; [reflexivity|]. split; [exact Hcycle | exact Hlater].
Defined.

(** An oldest-first gateway, polled twice: versions 10 and 11 are never
    emitted. *)
Example oldest_first_10_11_12 :
  poll_loop plain_chalk Sample.defaults
    [Resolved (JArr [Sample.t10; Sample.t11; Sample.t12]);
     Resolved (JArr [Sample.t10; Sample.t11; Sample.t12])]
    initial_lastSeenVersion
  = (Ok tt, JStr "12",
     [NewLine;
      Success "[DrillingStartedEvent] batch BATCH-12 — drilling started at Field-C • qty 250 bbl";
      NewLine;
      Success "[DeliveryEvent] batch BATCH-12 — delivered to Port-D";
      Sleep (Num 5000);
      Sleep (Num 5000)]).
Proof. vm_compute. reflexivity. Qed.

(** ** Errors raised while processing *)

Section Errors.

Variable ch : Chalk.
Variable opts : poll_options.

(** The watermark is written last: a body that throws leaves it. *)
Lemma txn_body_throw (txn w : value) (e : exn) (w' : value) (out : list effect) :
  txn_body ch opts txn w = (Throw e, w', out) -> w' = w.
Proof.
  unfold txn_body, bind, lift, read_lastSeenVersion, ret, write_lastSeenVersion.
  destruct (get txn "version") as [v|e1]; [|now intros [= _ <- _]].
  destruct (already_seen v w) as [[|]|e1];
    [discriminate | | now intros [= _ <- _]].
  destruct (get txn "events") as [evs|e1]; [|now intros [= _ <- _]].
  destruct (iterate "events" (or_else evs (JArr []))) as [events|e1];
    [|now intros [= _ <- _]].
  rewrite (stateless_events ch opts events w).
  destruct (for_of events (event_body ch opts) JNull) as [[[u|e1] w1] o1];
    cbn [fst snd]; [discriminate | now intros [= _ <- _]].
Qed.

(** The inner loop stops at the first event whose processing throws. *)
Lemma events_throw (pre : list value) (bad : value) (post : list value)
    (w : value) (e : exn) :
  Forall (fun evt => returns (event_body ch opts evt) JNull) pre ->
  fst (fst (event_body ch opts bad JNull)) = Throw e ->
  for_of (pre ++ bad :: post) (event_body ch opts) w
  = (Throw e, w,
     concat (map (event_output ch opts) pre) ++ event_output ch opts bad).
Proof.
  intros Hpre Hbad. induction Hpre as [|evt rest [u Hu] Hrest IH];
    cbn [app map concat]; rewrite for_of_cons.
  - rewrite (stateless_event_body ch opts bad w), Hbad. reflexivity.
  - rewrite (stateless_event_body ch opts evt w), Hu, IH.
    unfold event_output at 1. now rewrite app_assoc.
Qed.

Lemma txns_app (l1 l2 : list value) (w w1 : value) (out1 : list effect) :
  for_of l1 (txn_body ch opts) w = (Ok tt, w1, out1) ->
  for_of (l1 ++ l2) (txn_body ch opts) w
  = match for_of l2 (txn_body ch opts) w1 with
    | (r, w2, out2) => (r, w2, out1 ++ out2)
    end.
Proof.
  revert w out1. induction l1 as [|t rest IH]; intros w out1 H.
  - injection H as <- <-. cbn [app].
    now destruct (for_of l2 (txn_body ch opts) w) as [[r w2] out2].
  - cbn [app]. rewrite for_of_cons in H |- *.
    destruct (txn_body ch opts t w) as [[[u|e] w0] o0]; [|discriminate].
    destruct (for_of rest (txn_body ch opts) w0) as [[r' w'] o'] eqn:E.
    injection H as -> -> <-. rewrite (IH _ _ E).
    destruct (for_of l2 (txn_body ch opts) w1) as [[r w2] out2].
    now rewrite app_assoc.
Qed.

End Errors.

(** C4, as the code has it. An error raised while filtering or
    formatting one event ends the poll cycle. The events before it in the
    transaction have been emitted, what the failing event logged before it
    threw stays, the remaining events of the transaction and the remaining
    transactions of the batch are not processed, the watermark stays at
    the last transaction that was processed to its end, a warning with the
    error's message is logged and the poller goes to its wait. An event
    whose type is missing or has fewer than three segments raises nothing:
    it is passed over and the loop goes on. *)
Theorem event_error_ends_cycle (ch : Chalk) (opts : poll_options)
    (earlier : list value) (txn : value) (later : list value)
    (w w1 : value) (out1 : list effect)
    (pre : list value) (bad : value) (post : list value) (e : exn) :
  for_of earlier (txn_body ch opts) w = (Ok tt, w1, out1) ->
  versioned txn -> watermark w1 -> below (level w1) txn = false ->
  get txn "events" = Ok (JArr (pre ++ bad :: post)) ->
  Forall (fun evt => returns (event_body ch opts evt) JNull) pre ->
  fst (fst (event_body ch opts bad JNull)) = Throw e ->
  poll_cycle ch opts (Resolved (JArr (rev (earlier ++ txn :: later)))) w
  = (Ok tt, w1,
     out1 ++ concat (map (event_output ch opts) pre) ++ event_output ch opts bad
     ++ [Warning ("Polling error: " +++ message e); Sleep (intervalMs opts)]) /\
  (forall evt ty s w',
     get evt "type" = Ok ty -> or_else ty (JStr EmptyString) = JStr s ->
     parseEventType s = None ->
     event_body ch opts evt w' = (Ok tt, w', [])).
Proof.
  intros Hearlier Hv Hw1 Hb Hevents Hpre Hbad. split.
  - rewrite poll_cycle_unfold, try_block_resolved. cbn [ordered].
    rewrite rev_involutive, (txns_app ch opts _ _ _ _ _ Hearlier), for_of_cons.
    destruct (txn_body_cases ch opts txn w1 Hv Hw1) as [[Hb' _]|[_ E]];
      [congruence|].
    rewrite E. unfold tx_run, bind, lift. rewrite Hevents.
    cbn [or_else truthy iterate].
    rewrite (events_throw ch opts pre bad post JNull e Hpre Hbad).
    cbn [app]. now rewrite <- !app_assoc.
  - intros evt ty s w' Hty Hs Hparse.
    unfold event_body, bind, lift, ret. rewrite Hty, Hs.
    cbn [call_parseEventType]. now rewrite Hparse.
Qed.

Lemma event_error_ends_cycle_witness :
  let good := Sample.drilling_started "BATCH-5" "Field-A" 100 in
  let txn := Sample.txn "5" [good; JNull; good] in
  versioned txn /\
  fst (fst (event_body plain_chalk Sample.defaults JNull JNull))
  = Throw (TypeError "Cannot read properties of null (reading 'type')") /\
  poll_cycle plain_chalk Sample.defaults
    (Resolved (JArr [Sample.t12; txn])) JNull
  = (Ok tt, JNull,
     [NewLine;
      Success "[DrillingStartedEvent] batch BATCH-5 — drilling started at Field-A • qty 100 bbl";
      Warning "Polling error: Cannot read properties of null (reading 'type')";
      Sleep (Num 5000)]).
Proof.
  cbv zeta.
  assert (Hv : versioned
                 (Sample.txn "5" [Sample.drilling_started "BATCH-5" "Field-A" 100;
                                  JNull;
                                  Sample.drilling_started "BATCH-5" "Field-A" 100]))
    by discriminate.
  split; [exact Hv|]. split; [reflexivity|].
  refine (proj1 (event_error_ends_cycle plain_chalk Sample.defaults
            [] _ [Sample.t12] JNull JNull []
            [Sample.drilling_started "BATCH-5" "Field-A" 100] JNull
            [Sample.drilling_started "BATCH-5" "Field-A" 100]
            (TypeError "Cannot read properties of null (reading 'type')")
            eq_refl Hv (or_introl eq_refl) eq_refl eq_refl _ eq_refl)).
  repeat constructor. exists tt. vm_compute. reflexivity.
Defined.

(** C4, as stated, fails: with an event list whose first element is
    [null], reading [evt.type] throws; the cycle is abandoned, the event
    after it is not emitted although it passes the filters, and the
    watermark does not reach the transaction's version. Without the [null]
    element the same cycle emits the event and moves the watermark. *)
Lemma event_error_isolation_counterexample :
  let good := Sample.drilling_started "BATCH-5" "Field-A" 100 in
  fst (fst (event_body plain_chalk Sample.defaults JNull JNull))
  = Throw (TypeError "Cannot read properties of null (reading 'type')") /\
  event_body plain_chalk Sample.defaults good JNull
  = (Ok tt, JNull,
     [NewLine;
      Success "[DrillingStartedEvent] batch BATCH-5 — drilling started at Field-A • qty 100 bbl"]) /\
  poll_cycle plain_chalk Sample.defaults
    (Resolved (JArr [Sample.txn "5" [JNull; good]])) JNull
  = (Ok tt, JNull,
     [Warning "Polling error: Cannot read properties of null (reading 'type')";
      Sleep (Num 5000)]) /\
  poll_cycle plain_chalk Sample.defaults
    (Resolved (JArr [Sample.txn "5" [good]])) JNull
  = (Ok tt, JStr "5",
     [NewLine;
      Success "[DrillingStartedEvent] batch BATCH-5 — drilling started at Field-A • qty 100 bbl";
      Sleep (Num 5000)]).
Proof. cbv zeta. repeat split; vm_compute; reflexivity. Qed.

(** The watermark not having moved, the next cycle meets the same
    transaction again: the events before the failing one are emitted once
    more, and the cycle ends on the same error. *)
Example event_error_repeats :
  let good := Sample.drilling_started "BATCH-5" "Field-A" 100 in
  let answer := Resolved (JArr [Sample.txn "5" [good; JNull]]) in
  poll_loop plain_chalk Sample.defaults [answer; answer] initial_lastSeenVersion
  = (Ok tt, JNull,
     [NewLine;
      Success "[DrillingStartedEvent] batch BATCH-5 — drilling started at Field-A • qty 100 bbl";
      Warning "Polling error: Cannot read properties of null (reading 'type')";
      Sleep (Num 5000);
      NewLine;
      Success "[DrillingStartedEvent] batch BATCH-5 — drilling started at Field-A • qty 100 bbl";
      Warning "Polling error: Cannot read properties of null (reading 'type')";
      Sleep (Num 5000)]).
Proof. vm_compute. reflexivity. Qed.

(** ** Filters *)

Lemma parsed_type_truthy (s : string) (p : event_type) :
  parseEventType s = Some p -> or_else (JStr s) (JStr EmptyString) = JStr s.
Proof. destruct s; [discriminate | reflexivity]. Qed.

Lemma rejects_other (f actual : string) :
  f <> EmptyString -> actual <> f -> rejects (Some f) (JStr actual) = true.
Proof.
  intros Hf Ha. unfold rejects, strict_eq_string.
  apply String.eqb_neq in Hf, Ha. now rewrite Hf, Ha.
Qed.

Lemma strict_eq_string_false (v : value) (b : string) :
  v <> JStr b -> strict_eq_string v b = false.
Proof.
  destruct v as [| |x|n|t|l|f]; try reflexivity.
  intros H. apply String.eqb_neq. congruence.
Qed.

(** C5. An event whose parsed module differs from a set module filter
    is passed over, whatever the batch filter is; an event whose
    [data.batch_id] differs from a set batch filter logs nothing. *)
Theorem filtered_event_not_emitted (ch : Chalk) (opts : poll_options)
    (evt w : value) :
  (forall f s p,
     moduleFilter opts = Some f -> f <> EmptyString ->
     get evt "type" = Ok (JStr s) -> parseEventType s = Some p ->
     module p <> f ->
     event_body ch opts evt w = (Ok tt, w, [])) /\
  (forall b d,
     batchId opts = Some b -> b <> EmptyString ->
     get evt "data" = Ok d -> get_optional d "batch_id" <> JStr b ->
     effects_of (event_body ch opts evt) w = []).
Proof.
  split.
  - intros f s p Hf Hne Hty Hparse Hmod.
    unfold event_body, bind, lift, ret.
    rewrite Hty, (parsed_type_truthy s p Hparse).
    cbn [call_parseEventType]. rewrite Hparse, Hf.
    now rewrite (rejects_other f (module p) Hne Hmod).
  - intros b d Hb Hne Hd Hdiff.
    unfold effects_of, event_body, bind, lift, ret, log.
    destruct (get evt "type") as [ty|e]; [|reflexivity].
    destruct (call_parseEventType (or_else ty (JStr EmptyString))) as [[p|]|e];
      try reflexivity.
    destruct (rejects (moduleFilter opts) (JStr (module p))); [reflexivity|].
    unfold batch_rejects. rewrite Hb, Hd.
    apply String.eqb_neq in Hne. rewrite Hne. cbn [rbind].
    now rewrite (strict_eq_string_false _ b Hdiff).
Qed.

Lemma filtered_event_not_emitted_witness :
  let opts := {| moduleFilter := Some "oil_supply_chain";
                 batchId := Some "BATCH-1"; intervalMs := Num 5000 |} in
  let other := Sample.event "0xabc::other_module::DeliveryEvent"
                 [("batch_id", JStr "BATCH-1")] in
  let batch2 := Sample.drilling_started "BATCH-2" "Field-A" 100 in
  event_body plain_chalk opts other JNull = (Ok tt, JNull, []) /\
  effects_of (event_body plain_chalk opts batch2) JNull = [].
Proof.
  cbv zeta. split.
  - apply (proj1 (filtered_event_not_emitted plain_chalk _ _ JNull)
             "oil_supply_chain" "0xabc::other_module::DeliveryEvent"
             {| address := "0xabc"; module := "other_module";
                name := "DeliveryEvent" |});
      first [reflexivity | discriminate].
  - apply (proj2 (filtered_event_not_emitted plain_chalk _ _ JNull)
             "BATCH-1"
             (JObj [("batch_id", JStr "BATCH-2"); ("location", JStr "Field-A");
                    ("quantity", JNum 100); ("unit", JStr "bbl")]));
      first [reflexivity | discriminate].
Defined.

(** ** [formatEvent] *)

Section Format.

Variable ch : Chalk.

Lemma get_truthy (v : value) (k : string) :
  truthy v = true -> get v k = Ok (get_optional v k).
Proof. destruct v; try reflexivity; discriminate. Qed.

Lemma get_of_object (evt : value) (k k' : string) (x : string) :
  get evt k = Ok (JStr x) -> get evt k' = Ok (get_optional evt k').
Proof. destruct evt; try reflexivity; discriminate. Qed.

Lemma or_else_truthy (d : value) : truthy (or_else d (JObj [])) = true.
Proof. unfold or_else. now destruct (truthy d) eqn:E. Qed.

Lemma paint_printable (style : string -> string) (data : value) (k : string) :
  truthy data = true -> printable (get_optional data k) ->
  paint style data k = Ok (style (shown (get_optional data k))).
Proof.
  intros Ht [s Hs]. unfold paint, shown.
  rewrite (get_truthy data k Ht). cbn [rbind]. now rewrite Hs.
Qed.

(** [formatEvent] past the parse of the type. *)
Lemma formatEvent_parsed (evt : value) (s : string) (p : event_type) :
  get evt "type" = Ok (JStr s) -> parseEventType s = Some p ->
  formatEvent ch evt
  = (let data := or_else (get_optional evt "data") (JObj []) in
     let prefix := gray ch "[" +++ white ch (name p) +++ gray ch "]" in
     if String.eqb (name p) "DrillingStartedEvent" then
       template [Ok prefix; Ok " batch "; paint (cyan ch) data "batch_id";
                 Ok " — "; Ok (green ch "drilling started"); Ok " at ";
                 paint (white ch) data "location"; Ok " • qty ";
                 paint (white ch) data "quantity"; Ok " ";
                 paint (white ch) data "unit"]
     else if String.eqb (name p) "DrillingCompletedEvent" then
       template [Ok prefix; Ok " batch "; paint (cyan ch) data "batch_id";
                 Ok " — "; Ok (green ch "drilling completed"); Ok " at ";
                 paint (white ch) data "location"]
     else if String.eqb (name p) "TransportationEvent" then
       template [Ok prefix; Ok " batch "; paint (cyan ch) data "batch_id";
                 Ok " — moved "; paint (white ch) data "method";
                 Ok " from "; paint (white ch) data "from";
                 Ok " → "; paint (white ch) data "to"]
     else if String.eqb (name p) "RefiningEvent" then
       template [Ok prefix; Ok " batch "; paint (cyan ch) data "batch_id";
                 Ok " — "; Ok (magenta ch "refined"); Ok " at ";
                 paint (white ch) data "refinery"; Ok " • output ";
                 paint (white ch) data "output_quantity"; Ok " ";
                 paint (white ch) data "unit"]
     else if String.eqb (name p) "DeliveryEvent" then
       template [Ok prefix; Ok " batch "; paint (cyan ch) data "batch_id";
                 Ok " — "; Ok (blue ch "delivered"); Ok " to ";
                 paint (white ch) data "destination"]
     else
       template [Ok prefix; Ok " "; Ok (stringify data)]).
Proof.
  intros Hty Hparse. unfold formatEvent.
  rewrite Hty. cbn [rbind]. rewrite (parsed_type_truthy s p Hparse).
  cbn [call_parseEventType rbind]. rewrite Hparse.
  rewrite (get_of_object evt "type" "data" s Hty). reflexivity.
Qed.

End Format.

Ltac decide_kind :=
  repeat match goal with
         | |- context [String.eqb ?a ?b] =>
             let v := eval vm_compute in (String.eqb a b) in
             change (String.eqb a b) with v
         end;
  cbv iota.

Ltac paint_fields H :=
  repeat match goal with
         | |- context [paint ?style ?data ?k] =>
             rewrite (paint_printable style data k)
               by (try apply or_else_truthy;
                   apply (proj1 (Forall_forall _ _) H); simpl; tauto)
         end.

(** C9. [formatEvent] on an event whose type parses. For a name that is
    none of the five known kinds it returns the bracketed name followed by
    [JSON.stringify] of the event's data ([{}] when the event has none).
    For a known kind it returns the kind's line whenever the fields the
    line shows convert to strings; an absent field does, and shows as
    [undefined]. *)
Theorem formatEvent_rendering (ch : Chalk) (evt : value) (s : string)
    (p : event_type) :
  get evt "type" = Ok (JStr s) -> parseEventType s = Some p ->
  let data := or_else (get_optional evt "data") (JObj []) in
  let prefix := gray ch "[" +++ white ch (name p) +++ gray ch "]" in
  let field := fun k => shown (get_optional data k) in
  let printable_fields :=
    Forall (fun k => printable (get_optional data k)) in
  (~ In (name p) known_kinds ->
   formatEvent ch evt = Ok (prefix +++ " " +++ stringify data)) /\
  (forall k, get_optional data k = JUndefined ->
     printable (get_optional data k) /\ field k = "undefined") /\
  (name p = "DrillingStartedEvent" ->
   printable_fields ["batch_id"; "location"; "quantity"; "unit"] ->
   formatEvent ch evt
   = Ok (prefix +++ " batch " +++ cyan ch (field "batch_id") +++ " — "
         +++ green ch "drilling started" +++ " at "
         +++ white ch (field "location") +++ " • qty "
         +++ white ch (field "quantity") +++ " " +++ white ch (field "unit"))) /\
  (name p = "DrillingCompletedEvent" ->
   printable_fields ["batch_id"; "location"] ->
   formatEvent ch evt
   = Ok (prefix +++ " batch " +++ cyan ch (field "batch_id") +++ " — "
         +++ green ch "drilling completed" +++ " at "
         +++ white ch (field "location"))) /\
  (name p = "TransportationEvent" ->
   printable_fields ["batch_id"; "method"; "from"; "to"] ->
   formatEvent ch evt
   = Ok (prefix +++ " batch " +++ cyan ch (field "batch_id") +++ " — moved "
         +++ white ch (field "method") +++ " from " +++ white ch (field "from")
         +++ " → " +++ white ch (field "to"))) /\
  (name p = "RefiningEvent" ->
   printable_fields ["batch_id"; "refinery"; "output_quantity"; "unit"] ->
   formatEvent ch evt
   = Ok (prefix +++ " batch " +++ cyan ch (field "batch_id") +++ " — "
         +++ magenta ch "refined" +++ " at " +++ white ch (field "refinery")
         +++ " • output " +++ white ch (field "output_quantity") +++ " "
         +++ white ch (field "unit"))) /\
  (name p = "DeliveryEvent" ->
   printable_fields ["batch_id"; "destination"] ->
   formatEvent ch evt
   = Ok (prefix +++ " batch " +++ cyan ch (field "batch_id") +++ " — "
         +++ blue ch "delivered" +++ " to " +++ white ch (field "destination"))).
Proof.
  intros Hty Hparse data prefix field printable_fields.
  rewrite (formatEvent_parsed ch evt s p Hty Hparse). cbv zeta.
  fold data. fold prefix.
  split.
  { intros Hnot. unfold known_kinds in Hnot. cbn [In] in Hnot.
    repeat match goal with
           | |- context [String.eqb (name p) ?k] =>
               let e := fresh "e" in
               destruct (String.eqb_spec (name p) k) as [e|e];
               [symmetry in e; exfalso; tauto|]
           end.
    reflexivity. }
  split.
  { intros k Hk. subst field. cbv beta. unfold printable, shown. rewrite Hk.
    split; [now exists "undefined" | reflexivity]. }
  repeat split; intros Hname Hfields; rewrite Hname; decide_kind;
    subst printable_fields; cbv beta in Hfields; paint_fields Hfields;
    reflexivity.
Qed.

Lemma formatEvent_rendering_witness :
  let unknown := Sample.event "0xabc::oil_supply_chain::InspectionEvent"
                   [("batch_id", JStr "BATCH-7"); ("grade", JNum 3)] in
  let bare := JObj [("type", JStr "0xabc::oil_supply_chain::DeliveryEvent")] in
  formatEvent plain_chalk unknown
  = Ok ("[InspectionEvent] {" +++ quote "batch_id" +++ ":" +++ quote "BATCH-7"
        +++ "," +++ quote "grade" +++ ":3}") /\
  formatEvent plain_chalk bare
  = Ok "[DeliveryEvent] batch undefined — delivered to undefined".
Proof.
  cbv zeta. split.
  - apply (proj1 (formatEvent_rendering plain_chalk
                    (Sample.event "0xabc::oil_supply_chain::InspectionEvent"
                       [("batch_id", JStr "BATCH-7"); ("grade", JNum 3)])
                    "0xabc::oil_supply_chain::InspectionEvent"
                    {| address := "0xabc"; module := "oil_supply_chain";
                       name := "InspectionEvent" |} eq_refl eq_refl)).
    simpl. intuition discriminate.
  - apply (proj2 (proj2 (proj2 (proj2 (proj2 (proj2
             (formatEvent_rendering plain_chalk
                (JObj [("type", JStr "0xabc::oil_supply_chain::DeliveryEvent")])
                "0xabc::oil_supply_chain::DeliveryEvent"
                {| address := "0xabc"; module := "oil_supply_chain";
                   name := "DeliveryEvent" |} eq_refl eq_refl)))))));
      [reflexivity|].
    repeat constructor; now exists "undefined".
Defined.

(** A field that is present may still fail to convert: an object that
    owns a [toString] property has no callable conversion left, and the
    template literal throws. *)
Example formatEvent_unprintable_field :
  formatEvent plain_chalk
    (Sample.event "0xabc::oil_supply_chain::DeliveryEvent"
       [("batch_id", JObj [("toString", JNum 1)])])
  = Throw (TypeError "Cannot convert object to primitive value").
Proof. reflexivity. Qed.

(** ** Network selection *)

Section Network.

(** A name that [this.networks[name]] does not find at all is refused,
    with the registered names in the message, and the client is left as it
    was (an exception carries no new state). *)
Lemma setNetwork_absent (name : string) (c : RPCClient) :
  networks_get (networks c) name = Absent ->
  setNetwork name c
  = Throw (Error ("Unknown network: " +++ name +++ ". Available: "
                  +++ join ", " (map fst (networks c)))).
Proof. intros H. unfold setNetwork. now rewrite H. Qed.

(** A registered name with a non-empty URL is selected. *)
Lemma setNetwork_registered (name url : string) (c : RPCClient) :
  networks_get (networks c) name = OwnUrl url -> url <> EmptyString ->
  setNetwork name c
  = Ok ({| networks := networks c; currentNetwork := name |},
        [Info ("Network set to: " +++ name)]).
Proof.
  intros H Hurl. unfold setNetwork. rewrite H. cbn [property_truthy].
  apply String.eqb_neq in Hurl. now rewrite Hurl.
Qed.

(** The command on a name [setNetwork] refuses: a warning, and the poller
    runs on the client as it was. *)
Lemma trackCommand_refused_network (ch : Chalk) (addr name : string)
    (opts : track_opts) (rpc : RPCClient) (answers : list response) :
  opt_address opts = Some addr -> addr <> EmptyString ->
  opt_network opts = Some name -> name <> EmptyString ->
  networks_get (networks rpc) name = Absent ->
  exists r w out,
    trackCommand ch opts rpc answers
    = Polling rpc r w
        (Warning ("Unknown network '" +++ name +++ "', defaulting to testnet.")
         :: out).
Proof.
  intros Ha Hane Hn Hnne Habs. unfold trackCommand.
  apply String.eqb_neq in Hane, Hnne.
  rewrite Ha, Hn. cbn [is_set string_or]. rewrite Hane, Hnne. cbn [negb].
  rewrite (setNetwork_absent name rpc Habs).
  destruct (pollEvents ch addr _ answers) as [[r w] out].
  now exists r, w, (StartSpinner "Connecting to RPC and starting tracker..."
                    :: SucceedSpinner "Tracker running. Listening for events."
                    :: out).
Qed.

End Network.

(** C8 at a name that is not registered but is a property of
    [Object.prototype]: [this.networks["constructor"]] is the inherited
    [Object] function, which is truthy, so [setNetwork] does not throw; it
    makes [constructor] the current network, for which [getEndpoint] has
    no URL. The command then logs no warning and does not run against
    testnet. *)
Theorem setNetwork_inherited_name :
  own_url "constructor" (networks new_RPCClient) = None /\
  setNetwork "constructor" new_RPCClient
  = Ok ({| networks := networks new_RPCClient; currentNetwork := "constructor" |},
        [Info "Network set to: constructor"]) /\
  trackCommand plain_chalk
    {| opt_address := Some "0xabc"; opt_module := None; opt_batch := None;
       opt_network := Some "constructor"; opt_interval := None |}
    new_RPCClient []
  = Polling
      {| networks := networks new_RPCClient; currentNetwork := "constructor" |}
      (Ok tt) JNull
      [Info "Network set to: constructor";
       StartSpinner "Connecting to RPC and starting tracker...";
       SucceedSpinner "Tracker running. Listening for events.";
       Info "Tracking events for account: 0xabc";
       Info "Module filter: oil_supply_chain"] /\
  getEndpoint
    {| networks := networks new_RPCClient; currentNetwork := "constructor" |}
  = Inherited "constructor".
Proof. repeat split. Qed.

(** What the command does on a name that is found nowhere. *)
Example track_unknown_network :
  trackCommand plain_chalk
    {| opt_address := Some "0xabc"; opt_module := None; opt_batch := None;
       opt_network := Some "stagenet"; opt_interval := None |}
    new_RPCClient []
  = Polling new_RPCClient (Ok tt) JNull
      [Warning "Unknown network 'stagenet', defaulting to testnet.";
       StartSpinner "Connecting to RPC and starting tracker...";
       SucceedSpinner "Tracker running. Listening for events.";
       Info "Tracking events for account: 0xabc";
       Info "Module filter: oil_supply_chain"] /\
  setNetwork "stagenet" new_RPCClient
  = Throw (Error "Unknown network: stagenet. Available: testnet, devnet, mainnet").
Proof. split; reflexivity. Qed.

(** The end-to-end scenario of the specification: module filter
    [oil_supply_chain], batch filter [BATCH-123], one transaction at
    version 5 with two events of which one matches. *)
Example end_to_end :
  poll_cycle plain_chalk
    {| moduleFilter := Some "oil_supply_chain"; batchId := Some "BATCH-123";
       intervalMs := Num 5000 |}
    (Resolved (JArr [JObj [("version", JNum 5);
                           ("events",
                            JArr [Sample.drilling_started "BATCH-123" "Field-A" 100;
                                  Sample.drilling_started "BATCH-999" "Field-B" 7])]]))
    initial_lastSeenVersion
  = (Ok tt, JNum 5,
     [NewLine;
      Success "[DrillingStartedEvent] batch BATCH-123 — drilling started at Field-A • qty 100 bbl";
      Sleep (Num 5000)]).
Proof. vm_compute. reflexivity. Qed.

(** * Further properties *)

(** ** [parseEventType] on joined segments *)

(** X1. Round trip: an event type written as colon-free parts joined
    with [::] parses to its first three parts, whatever parts follow; with
    one or two parts it does not parse. *)
Theorem parseEventType_join (segments : list string) :
  segments <> [] -> Forall colon_free segments ->
  parseEventType (join "::" segments)
  = match segments with
    | a :: m :: n :: _ => Some {| address := a; module := m; name := n |}
    | _ => None
    end.
Proof.
  intros Hne H. unfold parseEventType. rewrite split_join by assumption.
  destruct segments as [|a [|m [|n extra]]]; reflexivity.
Qed.

Lemma parseEventType_join_witness :
  Forall colon_free ["0xabc"; "oil_supply_chain"; "RefiningEvent"; "v2"] /\
  parseEventType "0xabc::oil_supply_chain::RefiningEvent::v2"
  = Some {| address := "0xabc"; module := "oil_supply_chain";
            name := "RefiningEvent" |}.
Proof.
  assert (H : Forall colon_free ["0xabc"; "oil_supply_chain"; "RefiningEvent"; "v2"])
    by (repeat constructor).
  split; [exact H|].
  refine (parseEventType_join
            ["0xabc"; "oil_supply_chain"; "RefiningEvent"; "v2"] _ H).
  discriminate.
Defined.

(** ** Custom endpoints *)

Section Endpoints.

Import RpcClient.

Lemma own_url_replace_same (k url : string) (table : list (string * string)) :
  own_url k table <> None -> own_url k (replace_own k url table) = Some url.
Proof.
  induction table as [|[k' u] rest IH]; cbn [own_url replace_own]; [congruence|].
  destruct (String.eqb k k') eqn:E; cbn [own_url]; rewrite E; auto.
Qed.

Lemma own_url_replace_other (k k' url : string) (table : list (string * string)) :
  k' <> k -> own_url k' (replace_own k url table) = own_url k' table.
Proof.
  intros Hne. induction table as [|[k0 u] rest IH]; cbn [own_url replace_own];
    [reflexivity|].
  destruct (String.eqb k k0) eqn:E; cbn [own_url].
  - apply String.eqb_eq in E. subst k0.
    apply String.eqb_neq in Hne. now rewrite Hne.
  - now rewrite IH.
Qed.

Lemma own_url_insert_same (i : Z) (k url : string) (table : list (string * string)) :
  own_url k table = None -> own_url k (insert_index i k url table) = Some url.
Proof.
  induction table as [|[k' u] rest IH]; cbn [own_url insert_index]; intros H.
  - now rewrite String.eqb_refl.
  - destruct (String.eqb k k') eqn:E; [discriminate|].
    destruct (array_index k') as [j|]; [destruct (j <? i)|]; cbn [own_url];
      rewrite ?E, ?String.eqb_refl; auto.
Qed.

Lemma own_url_insert_other (i : Z) (k k' url : string)
    (table : list (string * string)) :
  k' <> k -> own_url k' (insert_index i k url table) = own_url k' table.
Proof.
  intros Hne. apply String.eqb_neq in Hne.
  induction table as [|[k0 u] rest IH]; cbn [own_url insert_index].
  - now rewrite Hne.
  - destruct (array_index k0) as [j|]; [destruct (j <? i)|]; cbn [own_url];
      rewrite ?Hne, ?IH; reflexivity.
Qed.

Lemma own_url_app (k : string) (t1 t2 : list (string * string)) :
  own_url k (t1 ++ t2)
  = match own_url k t1 with
    | Some u => Some u
    | None => own_url k t2
    end.
Proof.
  induction t1 as [|[k' u] rest IH]; cbn [app own_url]; [reflexivity|].
  now destruct (String.eqb k k').
Qed.

Lemma own_url_assign_same (k url : string) (table : list (string * string)) :
  k <> "__proto__" -> own_url k (assign table k url) = Some url.
Proof.
  intros Hk. unfold assign. destruct (own_url k table) as [u|] eqn:E.
  - apply own_url_replace_same. congruence.
  - apply String.eqb_neq in Hk. rewrite Hk.
    destruct (array_index k) as [i|].
    + now apply own_url_insert_same.
    + rewrite own_url_app, E. cbn [own_url]. now rewrite String.eqb_refl.
Qed.

Lemma own_url_assign_other (k k' url : string) (table : list (string * string)) :
  k' <> k -> own_url k' (assign table k url) = own_url k' table.
Proof.
  intros Hne. unfold assign. destruct (own_url k table) as [u|] eqn:E.
  - now apply own_url_replace_other.
  - destruct (String.eqb k "__proto__"); [reflexivity|].
    destruct (array_index k) as [i|].
    + now apply own_url_insert_other.
    + rewrite own_url_app. destruct (own_url k' table); [reflexivity|].
      cbn [own_url]. apply String.eqb_neq in Hne. now rewrite Hne.
Qed.

Lemma keys_replace (k url : string) (table : list (string * string)) :
  map fst (replace_own k url table) = map fst table.
Proof.
  induction table as [|[k' u] rest IH]; cbn [replace_own map]; [reflexivity|].
  destruct (String.eqb k k'); cbn [map fst]; [reflexivity | now rewrite IH].
Qed.

Lemma replace_replace (k u1 u2 : string) (table : list (string * string)) :
  replace_own k u2 (replace_own k u1 table) = replace_own k u2 table.
Proof.
  induction table as [|[k' u] rest IH]; cbn [replace_own]; [reflexivity|].
  destruct (String.eqb k k') eqn:E; cbn [replace_own]; rewrite E;
    [reflexivity | now rewrite IH].
Qed.

Lemma replace_insert (i : Z) (k u1 u2 : string) (table : list (string * string)) :
  own_url k table = None ->
  replace_own k u2 (insert_index i k u1 table) = insert_index i k u2 table.
Proof.
  induction table as [|[k' u] rest IH]; cbn [own_url insert_index replace_own];
    intros H.
  - now rewrite String.eqb_refl.
  - destruct (String.eqb k k') eqn:E; [discriminate|].
    destruct (array_index k') as [j|]; [destruct (j <? i)|];
      cbn [replace_own]; rewrite ?E, ?String.eqb_refl, ?IH; auto.
Qed.

Lemma replace_app (k u1 u2 : string) (table : list (string * string)) :
  own_url k table = None ->
  replace_own k u2 (table ++ [(k, u1)]) = table ++ [(k, u2)].
Proof.
  induction table as [|[k' u] rest IH]; cbn [own_url app replace_own]; intros H.
  - now rewrite String.eqb_refl.
  - destruct (String.eqb k k') eqn:E; [discriminate|]. now rewrite IH.
Qed.

End Endpoints.

(** X2. Round trip: after [setCustomEndpoint(name, url)] with a
    non-empty URL, under any name but [__proto__] and whatever the table
    held, [setNetwork(name)] succeeds and [getEndpoint()] is that URL. *)
Theorem custom_endpoint_selected (name url : string) (c : RPCClient) :
  name <> "__proto__" -> url <> EmptyString ->
  let c1 := fst (RpcClient.setCustomEndpoint name url c) in
  let c2 := {| networks := networks c1; currentNetwork := name |} in
  setNetwork name c1 = Ok (c2, [Info ("Network set to: " +++ name)]) /\
  getEndpoint c2 = OwnUrl url.
Proof.
  intros Hname Hurl c1 c2.
  assert (Hget : networks_get (networks c1) name = OwnUrl url).
  { unfold networks_get. subst c1. cbn [fst RpcClient.setCustomEndpoint networks].
    now rewrite (own_url_assign_same name url (networks c) Hname). }
  split.
  - now apply (setNetwork_registered name url c1).
  - exact Hget.
Qed.

Lemma custom_endpoint_selected_witness :
  "local" <> "__proto__" /\ "http://127.0.0.1:8080/v1" <> EmptyString /\
  getEndpoint
    {| networks :=
         networks (fst (RpcClient.setCustomEndpoint "local"
                          "http://127.0.0.1:8080/v1" new_RPCClient));
       currentNetwork := "local" |}
  = OwnUrl "http://127.0.0.1:8080/v1".
Proof.
  split; [discriminate|]. split; [discriminate|].
  apply (custom_endpoint_selected "local" "http://127.0.0.1:8080/v1"
           new_RPCClient); discriminate.
Defined.

(** X3. [setCustomEndpoint(name, url)] touches nothing but [name]: the
    current network stays, what [this.networks] gives under any other
    name stays, and the names the table already listed keep their order
    (an overwritten name keeps its place). *)
Theorem custom_endpoint_frame (name url : string) (c : RPCClient) :
  let c1 := fst (RpcClient.setCustomEndpoint name url c) in
  currentNetwork c1 = currentNetwork c /\
  (forall other, other <> name ->
     networks_get (networks c1) other = networks_get (networks c) other) /\
  filter (fun k => negb (String.eqb k name)) (Object_keys (networks c1))
  = filter (fun k => negb (String.eqb k name)) (Object_keys (networks c)) /\
  (own_url name (networks c) <> None ->
   Object_keys (networks c1) = Object_keys (networks c)).
Proof.
  cbv zeta. cbn [fst RpcClient.setCustomEndpoint networks currentNetwork].
  split; [reflexivity|]. split; [|split].
  - intros other Hne. unfold networks_get.
    now rewrite (own_url_assign_other name other url (networks c) Hne).
  - unfold Object_keys, RpcClient.assign.
    destruct (own_url name (networks c)) as [u|] eqn:E.
    + now rewrite keys_replace.
    + destruct (String.eqb name "__proto__"); [reflexivity|].
      destruct (RpcClient.array_index name) as [i|].
      * clear E. induction (networks c) as [|[k' u'] rest IH];
          cbn [RpcClient.insert_index map fst filter].
        -- now rewrite String.eqb_refl.
        -- destruct (RpcClient.array_index k') as [j|];
             [destruct (j <? i)|]; cbn [map fst filter];
             rewrite ?String.eqb_refl; cbn [negb]; rewrite ?IH; reflexivity.
      * rewrite map_app, filter_app. cbn [map fst filter].
        rewrite String.eqb_refl. cbn [negb]. now rewrite app_nil_r.
  - intros Hown. unfold Object_keys, RpcClient.assign.
    destruct (own_url name (networks c)); [apply keys_replace | congruence].
Qed.

Lemma custom_endpoint_frame_witness :
  let c1 := fst (RpcClient.setCustomEndpoint "devnet" "http://127.0.0.1:8080/v1"
                   new_RPCClient) in
  own_url "devnet" (networks new_RPCClient) <> None /\
  Object_keys (networks c1) = ["testnet"; "devnet"; "mainnet"] /\
  networks_get (networks c1) "testnet"
  = OwnUrl "https://aptos.testnet.porto.movementlabs.xyz/v1".
Proof.
  cbv zeta.
  assert (Hown : own_url "devnet" (networks new_RPCClient) <> None)
    by discriminate.
  split; [exact Hown|].
  pose proof (custom_endpoint_frame "devnet" "http://127.0.0.1:8080/v1"
                new_RPCClient) as H.
  cbv zeta in H. destruct H as [_ [Hother [_ Hkeys]]].
  split.
  - rewrite (Hkeys Hown). reflexivity.
  - rewrite (Hother "testnet"); [reflexivity | discriminate].
Defined.

(** X4. The last endpoint set for a name wins: setting [u1] and then
    [u2] leaves the table that setting [u2] alone leaves. *)
Theorem custom_endpoint_override (name u1 u2 : string) (c : RPCClient) :
  fst (RpcClient.setCustomEndpoint name u2
         (fst (RpcClient.setCustomEndpoint name u1 c)))
  = fst (RpcClient.setCustomEndpoint name u2 c).
Proof.
  cbn [fst RpcClient.setCustomEndpoint networks currentNetwork]. f_equal.
  unfold RpcClient.assign at 2 3.
  destruct (own_url name (networks c)) as [u|] eqn:E.
  - unfold RpcClient.assign.
    rewrite (own_url_replace_same name u1 (networks c)) by congruence.
    apply replace_replace.
  - destruct (String.eqb name "__proto__") eqn:Ep.
    + unfold RpcClient.assign. now rewrite E, Ep.
    + apply String.eqb_neq in Ep.
      destruct (RpcClient.array_index name) as [i|] eqn:Ei.
      * unfold RpcClient.assign.
        rewrite (own_url_insert_same i name u1 (networks c) E).
        now apply replace_insert.
      * unfold RpcClient.assign.
        rewrite own_url_app, E. cbn [own_url]. rewrite String.eqb_refl.
        now apply replace_app.
Qed.

(** X5. Explorer links exist for the three built-in networks only: a
    link is returned exactly when the current network is one of them,
    whatever endpoints were set; a network known only through
    [setCustomEndpoint] can be selected and has an endpoint but no
    transaction or account link ([undefined]). *)
Theorem explorer_links_builtin_only (hash account name url : string)
    (c : RPCClient) :
  ((exists link, RpcClient.getExplorerUrl hash c = OwnUrl link) <->
   In (currentNetwork c) RpcClient.builtin_networks) /\
  (~ In name RpcClient.builtin_networks ->
   ~ In name object_prototype_properties -> url <> EmptyString ->
   let c2 := {| networks :=
                  networks (fst (RpcClient.setCustomEndpoint name url c));
                currentNetwork := name |} in
   setNetwork name (fst (RpcClient.setCustomEndpoint name url c))
   = Ok (c2, [Info ("Network set to: " +++ name)]) /\
   getEndpoint c2 = OwnUrl url /\
   RpcClient.getExplorerUrl hash c2 = Absent /\
   RpcClient.getAccountExplorerUrl account c2 = Absent).
Proof.
  split.
  - unfold RpcClient.getExplorerUrl, networks_get, RpcClient.builtin_networks.
    cbn [own_url In].
    destruct (String.eqb_spec (currentNetwork c) "testnet") as [E1|E1];
      [split; [intros _; now left | intros _; eexists; reflexivity]|].
    destruct (String.eqb_spec (currentNetwork c) "devnet") as [E2|E2];
      [split; [intros _; right; now left | intros _; eexists; reflexivity]|].
    destruct (String.eqb_spec (currentNetwork c) "mainnet") as [E3|E3];
      [split; [intros _; right; right; now left | intros _; eexists; reflexivity]|].
    split.
    + intros [link H].
      destruct (existsb (String.eqb (currentNetwork c)) object_prototype_properties);
        discriminate.
    + intros [H|[H|[H|[]]]]; congruence.
  - intros Hb Hp Hurl c2.
    assert (Hname : name <> "__proto__").
    { intros ->. apply Hp. unfold object_prototype_properties. simpl. tauto. }
    destruct (custom_endpoint_selected name url c Hname Hurl) as [Hset Hend].
    split; [exact Hset|]. split; [exact Hend|].
    assert (Habs : forall table,
              (forall k u, In (k, u) table -> In k RpcClient.builtin_networks) ->
              networks_get table name = Absent).
    { intros table Ht. unfold networks_get.
      assert (Hown : own_url name table = None).
      { induction table as [|[k u] rest IH]; [reflexivity|]. cbn [own_url].
        destruct (String.eqb_spec name k) as [->|Hne].
        - exfalso. apply Hb. apply (Ht k u). now left.
        - apply IH. intros k0 u0 Hin. apply (Ht k0 u0). now right. }
      rewrite Hown.
      destruct (existsb (String.eqb name) object_prototype_properties) eqn:Ex;
        [|reflexivity].
      exfalso. apply Hp. apply existsb_exists in Ex as (x & Hx & Heq).
      apply String.eqb_eq in Heq. now subst x. }
    split; apply Habs; intros k u Hin; cbn [In] in Hin;
      unfold RpcClient.builtin_networks; cbn [In];
      intuition (try congruence);
      match goal with
      | H : (_, _) = (_, _) |- _ => injection H as <- _; tauto
      end.
Qed.

Lemma explorer_links_builtin_only_witness :
  ~ In "local" RpcClient.builtin_networks /\
  ~ In "local" object_prototype_properties /\
  RpcClient.getExplorerUrl "0xfeed"
    {| networks :=
         networks (fst (RpcClient.setCustomEndpoint "local"
                          "http://127.0.0.1:8080/v1" new_RPCClient));
       currentNetwork := "local" |}
  = Absent.
Proof.
  assert (H1 : ~ In "local" RpcClient.builtin_networks)
    by (simpl; intuition discriminate).
  assert (H2 : ~ In "local" object_prototype_properties)
    by (simpl; intuition discriminate).
  split; [exact H1|]. split; [exact H2|].
  apply (proj2 (explorer_links_builtin_only "0xfeed" "0x1" "local"
                  "http://127.0.0.1:8080/v1" new_RPCClient) H1 H2).
  discriminate.
Defined.

(** ** The arguments of a simulated call *)

Section Arguments.

Import Simulate.

Lemma includes_colon_plain (s : string) :
  colon_free s -> includes_colon s = false.
Proof.
  unfold colon_free, includes_colon.
  induction (list_ascii_of_string s) as [|c l IH]; intros H; [reflexivity|].
  inversion H as [|? ? Hc Hl]; subst. cbn [existsb]. rewrite Hc. now apply IH.
Qed.

Lemma includes_colon_tagged (t rest : string) :
  includes_colon (t +++ ":" +++ rest) = true.
Proof.
  unfold includes_colon. induction t as [|c t IH]; [reflexivity|].
  cbn [String.append list_ascii_of_string existsb] in IH |- *. rewrite IH.
  apply orb_true_r.
Qed.

Lemma split_colon_plain (s : string) : colon_free s -> split_colon s = [s].
Proof.
  unfold colon_free. induction s as [|c s IH]; intros H; [reflexivity|].
  cbn [list_ascii_of_string] in H. inversion H as [|? ? Hc Hs]; subst.
  cbn [split_colon]. rewrite Hc, (IH Hs). reflexivity.
Qed.

Lemma split_colon_tagged (t rest : string) :
  colon_free t -> split_colon (t +++ ":" +++ rest) = t :: split_colon rest.
Proof.
  unfold colon_free. induction t as [|c t IH]; intros H; [reflexivity|].
  cbn [list_ascii_of_string] in H. inversion H as [|? ? Hc Ht]; subst.
  specialize (IH Ht).
  cbn [String.append split_colon] in IH |- *. rewrite Hc, IH. reflexivity.
Qed.

(** What [parseArgument] does with the first two segments. *)
Lemma parseArgument_segments (t v : string) (more : list string) (arg : string) :
  includes_colon arg = true -> split_colon arg = t :: v :: more ->
  parseArgument arg
  = if String.eqb (toLowerCase t) "bool"
    then JBool (String.eqb (toLowerCase v) "true")
    else JStr v.
Proof.
  intros Hc Hs. unfold parseArgument. rewrite Hc, Hs. cbn [nth].
  repeat match goal with
         | |- context [String.eqb (toLowerCase t) ?k] =>
             lazymatch k with
             | "bool" => fail
             | _ => destruct (String.eqb (toLowerCase t) k) eqn:?
             end
         end;
  try reflexivity;
  repeat match goal with
         | H : String.eqb _ _ = true |- _ => apply String.eqb_eq in H
         end;
  match goal with
  | H : toLowerCase t = _ |- _ => rewrite H; reflexivity
  end.
Qed.

End Arguments.

(** X6. An argument without a colon is passed on as it is. Of an
    argument with colons only the first two segments count: whatever
    follows a second colon is dropped, so a value that itself contains a
    colon is cut there. *)
Theorem parseArgument_cut (t v rest plain : string) :
  colon_free plain -> colon_free t -> colon_free v ->
  Simulate.parseArgument plain = JStr plain /\
  Simulate.parseArgument (t +++ ":" +++ v +++ ":" +++ rest)
  = Simulate.parseArgument (t +++ ":" +++ v).
Proof.
  intros Hp Ht Hv. split.
  - unfold Simulate.parseArgument. now rewrite (includes_colon_plain plain Hp).
  - rewrite (parseArgument_segments t v (Simulate.split_colon rest)
               (t +++ ":" +++ v +++ ":" +++ rest)).
    + rewrite (parseArgument_segments t v [] (t +++ ":" +++ v)); [reflexivity| |].
      * apply includes_colon_tagged.
      * rewrite split_colon_tagged by exact Ht. now rewrite split_colon_plain.
    + apply includes_colon_tagged.
    + rewrite split_colon_tagged by exact Ht.
      now rewrite split_colon_tagged by exact Hv.
Qed.

Lemma parseArgument_cut_witness :
  colon_free "0x1" /\ colon_free "address" /\
  Simulate.parseArgument "0x1" = JStr "0x1" /\
  Simulate.parseArgument "address:0x1::coin::T"
  = Simulate.parseArgument "address:0x1" /\
  Simulate.parseArguments ["string:http://node"; "7"] = [JStr "http"; JStr "7"].
Proof.
  assert (H1 : colon_free "0x1") by (repeat constructor).
  assert (H2 : colon_free "address") by (repeat constructor).
  split; [exact H1|]. split; [exact H2|].
  split; [|split; [|reflexivity]].
  - exact (proj1 (parseArgument_cut "address" "0x1" ":coin::T" "0x1" H1 H2 H1)).
  - exact (proj2 (parseArgument_cut "address" "0x1" ":coin::T" "0x1" H1 H2 H1)).
Defined.

(** X7. Of the type tag only [bool] matters, in any letter case: its
    value becomes a boolean, true exactly for [true] in any letter case.
    Under every other tag, known or not, the value is passed on as the
    string it is: numbers are neither converted nor checked. *)
Theorem parseArgument_tag (t v : string) :
  colon_free t -> colon_free v ->
  (Simulate.toLowerCase t = "bool" ->
   Simulate.parseArgument (t +++ ":" +++ v)
   = JBool (String.eqb (Simulate.toLowerCase v) "true")) /\
  (Simulate.toLowerCase t <> "bool" ->
   Simulate.parseArgument (t +++ ":" +++ v) = JStr v).
Proof.
  intros Ht Hv.
  assert (H : Simulate.parseArgument (t +++ ":" +++ v)
              = if String.eqb (Simulate.toLowerCase t) "bool"
                then JBool (String.eqb (Simulate.toLowerCase v) "true")
                else JStr v).
  { apply (parseArgument_segments t v []).
    - apply includes_colon_tagged.
    - rewrite split_colon_tagged by exact Ht. now rewrite split_colon_plain. }
  split; intros Hb; rewrite H.
  - now rewrite Hb.
  - apply String.eqb_neq in Hb. now rewrite Hb.
Qed.

Lemma parseArgument_tag_witness :
  Simulate.parseArgument "BOOL:True" = JBool true /\
  Simulate.parseArgument "bool:1" = JBool false /\
  Simulate.parseArgument "u64:abc" = JStr "abc" /\
  Simulate.parseArgument "vector<u8>:0x00" = JStr "0x00".
Proof.
  split; [|split; [|split]].
  - apply (proj1 (parseArgument_tag "BOOL" "True"
                    ltac:(repeat constructor) ltac:(repeat constructor))).
    reflexivity.
  - apply (proj1 (parseArgument_tag "bool" "1"
                    ltac:(repeat constructor) ltac:(repeat constructor))).
    reflexivity.
  - apply (proj2 (parseArgument_tag "u64" "abc"
                    ltac:(repeat constructor) ltac:(repeat constructor))).
    discriminate.
  - apply (proj2 (parseArgument_tag "vector<u8>" "0x00"
                    ltac:(repeat constructor) ltac:(repeat constructor))).
    discriminate.
Defined.

(** ** The default network of a configuration *)

(** X8. [getDefaultNetwork] never throws, whatever JSON value (or
    [undefined]) it is given: the property reads are guarded. It returns
    [null] or a truthy value, and a truthy result is the
    [deployment.defaultNetwork] of the configuration. *)
Theorem getDefaultNetwork_total (configData : value) :
  exists r,
    Config.getDefaultNetwork configData = Ok r /\
    (r = JNull \/
     truthy r = true /\
     r = get_optional (get_optional configData "deployment") "defaultNetwork").
Proof.
  unfold Config.getDefaultNetwork.
  destruct (truthy configData) eqn:Ec; cbn [negb]; [|exists JNull; auto].
  rewrite (get_truthy configData "deployment" Ec). cbn [rbind].
  destruct (truthy (get_optional configData "deployment")) eqn:Ed; cbn [negb];
    [|exists JNull; auto].
  rewrite (get_truthy _ "defaultNetwork" Ed). cbn [rbind]. unfold or_else.
  destruct (truthy (get_optional (get_optional configData "deployment")
                      "defaultNetwork")) eqn:En.
  - eexists. split; [reflexivity|]. right. now split.
  - exists JNull. auto.
Qed.

(** ** A transaction whose events cannot be processed *)

Section Poison.

Variable ch : Chalk.
Variable opts : poll_options.

Lemma level_lt_le (a b : option Z) (z : Z) :
  level_le a b -> level_lt b z -> level_lt a z.
Proof. destruct a, b; simpl; try tauto; lia. Qed.

(** An ascending list that contains a transaction whose events throw is
    never processed past it. *)
Lemma ascending_stuck (txn : value) (z : Z) (e0 : exn) (out0 : list effect)
    (l : list value) :
  version_of txn = Some z -> tx_run ch opts txn = (Throw e0, out0) ->
  Forall versioned l -> oldest_first l -> In txn l ->
  forall w, watermark w -> level_lt (level w) z ->
  exists e w' out,
    for_of l (txn_body ch opts) w = (Throw e, w', out) /\
    watermark w' /\ level_lt (level w') z.
Proof.
  intros Hz Hrun Hv Hs. induction Hs as [|h rest Hrest IH Hold];
    intros Hin w Hw Hlt; [contradiction|].
  apply Forall_cons_iff in Hv as [Hvh Hvrest].
  rewrite for_of_cons.
  destruct Hin as [->|Hin].
  - destruct (txn_body_cases ch opts txn w Hvh Hw) as [[Hb _]|[_ E]].
    + exfalso. unfold below in Hb. rewrite Hz in Hb.
      destruct (level w) as [zw|]; [|discriminate].
      apply Z.leb_le in Hb. simpl in Hlt. lia.
    + rewrite E, Hrun. now exists e0, w, out0.
  - assert (Hhz : older h txn)
      by (apply (proj1 (Forall_forall _ _) Hold); exact Hin).
    unfold older in Hhz. rewrite Hz in Hhz.
    destruct (version_of h) as [zh|] eqn:Ezh; [|contradiction].
    destruct (txn_body_cases ch opts h w Hvh Hw) as [[_ E]|[_ E]]; rewrite E.
    + destruct (IH Hvrest Hin w Hw Hlt) as (e & w' & out & H1 & H2 & H3).
      rewrite H1. now exists e, w', out.
    + destruct (tx_run ch opts h) as [[u|e] o].
      * destruct (version_of_get h zh Ezh) as [_ Hp].
        assert (Hw1 : watermark (version_value h)) by (right; congruence).
        assert (Hl1 : level_lt (level (version_value h)) z)
          by (unfold level; rewrite Hp; exact Hhz).
        destruct (IH Hvrest Hin _ Hw1 Hl1) as (e & w' & out & H1 & H2 & H3).
        rewrite H1. now exists e, w', (o ++ out).
      * now exists e, w, o.
Qed.

Lemma blocked_cycle (txn : value) (z : Z) (e0 : exn) (out0 : list effect)
    (r : response) (w : value) :
  version_of txn = Some z -> tx_run ch opts txn = (Throw e0, out0) ->
  shows txn r -> watermark w -> level_lt (level w) z ->
  watermark (watermark_after (poll_cycle ch opts r) w) /\
  level_lt (level (watermark_after (poll_cycle ch opts r) w)) z.
Proof.
  intros Hz Hrun Hr Hw Hlt. rewrite poll_cycle_watermark. unfold watermark_after.
  destruct r as [data|e]; [|now split].
  rewrite try_block_resolved.
  destruct data as [| |b|n|s|batch|f]; try now split.
  cbn [shows] in Hr. destruct Hr as (Hv & Hs & Hin). cbn [ordered].
  destruct (ascending_stuck txn z e0 out0 (rev batch) Hz Hrun)
    with (w := w) as (e & w' & out & H1 & H2 & H3);
    [now apply Forall_rev | | now apply in_rev in Hin | exact Hw | exact Hlt |].
  - apply (StronglySorted_rev _ (fun a b => older b a)). exact Hs.
  - rewrite H1. now split.
Qed.

End Poison.

(** X9. A transaction whose events cannot be processed blocks the
    tracker. As long as the gateway's batches are newest-first and contain
    it, the watermark stays below its version, however many cycles run;
    each such cycle leaves the [try] block by an exception and logs the
    polling warning, so neither this transaction's remaining events nor
    any newer transaction ever gets past. *)
Theorem poisoned_transaction_blocks (ch : Chalk) (opts : poll_options)
    (txn : value) (z : Z) (e0 : exn) (out0 : list effect)
    (answers : list response) (batch : list value) (w : value) :
  version_of txn = Some z -> tx_run ch opts txn = (Throw e0, out0) ->
  watermark w -> level_lt (level w) z ->
  Forall (shows txn) answers -> shows txn (Resolved (JArr batch)) ->
  let w1 := watermark_after (poll_loop ch opts answers) w in
  level_lt (level w1) z /\
  exists e w2 out,
    try_block ch opts (Resolved (JArr batch)) w1 = (Throw e, w2, out) /\
    level_lt (level w2) z /\
    poll_cycle ch opts (Resolved (JArr batch)) w1
    = (Ok tt, w2,
       out ++ [Warning ("Polling error: " +++ message e);
               Sleep (intervalMs opts)]).
Proof.
  intros Hz Hrun Hw Hlt Hanswers Hbatch w1.
  assert (Hrunlevel : watermark w1 /\ level_lt (level w1) z).
  { subst w1. revert w Hw Hlt.
    induction Hanswers as [|r rest Hr Hrest IH]; intros w Hw Hlt; [now split|].
    change (r :: rest) with ([r] ++ rest). rewrite poll_loop_app.
    assert (E : watermark_after (poll_loop ch opts [r]) w
                = watermark_after (poll_cycle ch opts r) w).
    { unfold watermark_after. rewrite poll_loop_cons. reflexivity. }
    rewrite E.
    destruct (blocked_cycle ch opts txn z e0 out0 r w Hz Hrun Hr Hw Hlt)
      as [Hw' Hlt'].
    now apply IH. }
  destruct Hrunlevel as [Hw1 Hlt1]. split; [exact Hlt1|].
  cbn [shows] in Hbatch. destruct Hbatch as (Hv & Hs & Hin).
  destruct (ascending_stuck ch opts txn z e0 out0 (rev batch) Hz Hrun)
    with (w := w1) as (e & w2 & out & H1 & H2 & H3);
    [now apply Forall_rev | | now apply in_rev in Hin | exact Hw1 | exact Hlt1 |].
  { apply (StronglySorted_rev _ (fun a b => older b a)). exact Hs. }
  exists e, w2, out.
  assert (Htry : try_block ch opts (Resolved (JArr batch)) w1 = (Throw e, w2, out))
    by (rewrite try_block_resolved; exact H1).
  split; [exact Htry|]. split; [exact H3|].
  rewrite poll_cycle_unfold, Htry. reflexivity.
Qed.

Lemma poisoned_transaction_blocks_witness :
  let bad := Sample.txn "11" [JNull] in
  let batch := [Sample.t12; bad; Sample.t10] in
  version_of bad = Some 11 /\
  shows bad (Resolved (JArr batch)) /\
  level_lt (level (watermark_after
                     (poll_loop plain_chalk Sample.defaults
                        [Resolved (JArr batch); Resolved (JArr batch)])
                     JNull)) 11.
Proof.
  cbv zeta.
  assert (Hs : shows (Sample.txn "11" [JNull])
                 (Resolved (JArr [Sample.t12; Sample.txn "11" [JNull]; Sample.t10]))).
  { split; [repeat constructor; discriminate|].
    split; [repeat constructor; vm_compute; reflexivity|].
    right. now left. }
  split; [reflexivity|]. split; [exact Hs|].
  refine (proj1 (poisoned_transaction_blocks plain_chalk Sample.defaults
                   (Sample.txn "11" [JNull]) 11
                   (TypeError "Cannot read properties of null (reading 'type')") []
                   [Resolved (JArr [Sample.t12; Sample.txn "11" [JNull]; Sample.t10]);
                    Resolved (JArr [Sample.t12; Sample.txn "11" [JNull]; Sample.t10])]
                   [Sample.t12; Sample.txn "11" [JNull]; Sample.t10] JNull
                   eq_refl eq_refl (or_introl eq_refl) I _ Hs)).
  constructor; [exact Hs | constructor; [exact Hs | constructor]].
Defined.

(** ** One wait per cycle *)

Section Quiet.

Variable ch : Chalk.
Variable opts : poll_options.

Lemma quiet_ret {A : Type} (a : A) : quiet (ret a).
Proof. intros w. reflexivity. Qed.

Lemma quiet_lift {A : Type} (r : result A) : quiet (lift r).
Proof. intros w. reflexivity. Qed.

Lemma quiet_bind {A B : Type} (m : M A) (k : A -> M B) :
  quiet m -> (forall a, quiet (k a)) -> quiet (bind m k).
Proof.
  intros Hm Hk w. unfold bind. specialize (Hm w).
  destruct (m w) as [[[a|e] w1] out1]; cbn [snd] in *; [|exact Hm].
  specialize (Hk a w1). destruct (k a w1) as [[r w2] out2]. cbn [snd] in *.
  rewrite forallb_app, Hm, Hk. reflexivity.
Qed.

Lemma quiet_for_of (items : list value) (body : value -> M unit) :
  (forall x, quiet (body x)) -> quiet (for_of items body).
Proof.
  intros Hb. induction items as [|x rest IH]; cbn [for_of].
  - apply quiet_ret.
  - apply quiet_bind; [apply Hb | intros _; exact IH].
Qed.

Lemma quiet_event_body (evt : value) : quiet (event_body ch opts evt).
Proof.
  unfold event_body.
  apply quiet_bind; [apply quiet_lift|]; intros ty.
  apply quiet_bind; [apply quiet_lift|]; intros [p|]; [|apply quiet_ret].
  destruct (rejects (moduleFilter opts) (JStr (module p))); [apply quiet_ret|].
  apply quiet_bind; [apply quiet_lift|]; intros [|]; [apply quiet_ret|].
  apply quiet_bind; [intros w; reflexivity|]; intros _.
  apply quiet_bind; [apply quiet_lift|]; intros line.
  intros w. reflexivity.
Qed.

Lemma quiet_txn_body (txn : value) : quiet (txn_body ch opts txn).
Proof.
  unfold txn_body.
  apply quiet_bind; [apply quiet_lift|]; intros version.
  apply quiet_bind; [intros w; reflexivity|]; intros lsv.
  apply quiet_bind; [apply quiet_lift|]; intros [|]; [apply quiet_ret|].
  apply quiet_bind; [apply quiet_lift|]; intros evs.
  apply quiet_bind; [apply quiet_lift|]; intros events.
  apply quiet_bind; [apply quiet_for_of, quiet_event_body|]; intros _.
  intros w. reflexivity.
Qed.

Lemma quiet_try_block (r : response) : quiet (try_block ch opts r).
Proof.
  unfold try_block.
  apply quiet_bind; [apply quiet_lift|]; intros txns.
  apply quiet_for_of, quiet_txn_body.
Qed.

Lemma event_line_not_sleep (l : list effect) :
  forallb event_line l = true -> filter is_sleep l = [].
Proof.
  induction l as [|e l IH]; [reflexivity|]. cbn [forallb filter].
  intros H. apply andb_prop in H as [He Hl].
  destruct e; try discriminate; cbn [is_sleep]; now apply IH.
Qed.

Lemma event_line_not_warning (l : list effect) :
  forallb event_line l = true -> filter is_warning l = [].
Proof.
  induction l as [|e l IH]; [reflexivity|]. cbn [forallb filter].
  intros H. apply andb_prop in H as [He Hl].
  destruct e; try discriminate; cbn [is_warning]; now apply IH.
Qed.

Lemma tracker_lines_events (l : list effect) :
  forallb event_line l = true -> tracker_lines l = l.
Proof.
  unfold tracker_lines.
  induction l as [|e l IH]; [reflexivity|]. cbn [forallb filter].
  intros H. apply andb_prop in H as [He Hl].
  rewrite He. cbn [orb]. now rewrite IH.
Qed.

Lemma tracker_lines_app (l1 l2 : list effect) :
  tracker_lines (l1 ++ l2) = tracker_lines l1 ++ tracker_lines l2.
Proof. unfold tracker_lines. apply filter_app. Qed.

End Quiet.

(** X10. Every turn of the loop waits exactly once, and the wait is
    the last thing it does. Of the tracker's lines in a cycle (event
    lines and warnings; what the RPC client logs while it fetches is not
    counted), the event lines come first and at most one warning follows
    them, the one of the [catch]. So a run of the poller has performed as
    many waits as fetches, whatever the gateway answered and whatever
    failed. *)
Theorem one_wait_per_cycle (ch : Chalk) (opts : poll_options) (r : response)
    (answers : list response) (w : value) :
  (exists before,
     effects_of (poll_cycle ch opts r) w = before ++ [Sleep (intervalMs opts)] /\
     filter is_sleep before = [] /\
     exists lines tail,
       tracker_lines before = lines ++ tail /\
       forallb event_line lines = true /\
       (tail = [] \/
        exists e, tail = [Warning ("Polling error: " +++ message e)])) /\
  length (filter is_sleep (effects_of (poll_loop ch opts answers) w))
  = length answers.
Proof.
  assert (Hcycle : forall r w,
            exists before,
              effects_of (poll_cycle ch opts r) w
              = before ++ [Sleep (intervalMs opts)] /\
              filter is_sleep before = [] /\
              exists lines tail,
                tracker_lines before = lines ++ tail /\
                forallb event_line lines = true /\
                (tail = [] \/
                 exists e, tail = [Warning ("Polling error: " +++ message e)])).
  { intros r0 w0. unfold effects_of. rewrite poll_cycle_unfold.
    pose proof (quiet_try_block ch opts r0 w0) as Hq.
    destruct (try_block ch opts r0 w0) as [[[u|e] w1] out]; cbn [snd] in *.
    - exists out. split; [reflexivity|].
      split; [now apply event_line_not_sleep|].
      exists out, []. rewrite app_nil_r.
      split; [now apply tracker_lines_events|]. split; [exact Hq | now left].
    - exists (out ++ [Warning ("Polling error: " +++ message e)]).
      split; [now rewrite <- app_assoc|].
      split; [rewrite filter_app, (event_line_not_sleep out Hq); reflexivity|].
      exists out, [Warning ("Polling error: " +++ message e)].
      split; [rewrite tracker_lines_app, (tracker_lines_events out Hq);
              reflexivity|].
      split; [exact Hq|]. right. now exists e. }
  split; [apply Hcycle|].
  revert w. induction answers as [|r0 rest IH]; intros w; [reflexivity|].
  unfold effects_of. rewrite poll_loop_cons.
  specialize (IH (watermark_after (poll_cycle ch opts r0) w)).
  unfold effects_of at 1 in IH.
  destruct (poll_loop ch opts rest _) as [[res w'] out]. cbn [snd] in *.
  destruct (Hcycle r0 w) as (before & Heq & Hbefore & _).
  rewrite Heq, !filter_app, !length_app, IH, Hbefore. reflexivity.
Qed.

(** ** Polling again *)

Section Again.

Lemma filter_none (A : Type) (l : list A) : filter (fun _ => false) l = [].
Proof. induction l as [|x l IH]; [reflexivity | exact IH]. Qed.

Lemma below_highest (batch : list value) (txn : value) :
  In txn batch -> versioned txn -> below (highest batch) txn = true.
Proof.
  induction batch as [|h rest IH]; [contradiction|].
  intros [->|Hin] Hv; cbn [highest fold_right]; fold (highest rest).
  - unfold versioned in Hv. unfold below.
    destruct (version_of txn) as [z|]; [|congruence].
    destruct (highest rest) as [m|]; simpl; apply Z.leb_le; lia.
  - eapply below_le; [apply level_le_max_r | now apply IH].
Qed.

End Again.

(** X11. Polling again shows nothing: when a cycle has gone through a
    batch, a cycle on the same batch right after it returns, emits no
    event line and no warning, does not move the watermark and waits
    once. *)
Theorem repoll_is_silent (ch : Chalk) (opts : poll_options)
    (batch : list value) (w : value) :
  Forall versioned batch -> watermark w ->
  returns (try_block ch opts (Resolved (JArr batch))) w ->
  let w1 := watermark_after (poll_cycle ch opts (Resolved (JArr batch))) w in
  exists out,
    poll_cycle ch opts (Resolved (JArr batch)) w1 = (Ok tt, w1, out) /\
    tracker_lines out = [] /\
    filter is_sleep out = [Sleep (intervalMs opts)].
Proof.
  intros Hv Hw Hret w1.
  destruct (try_block_level ch opts (Resolved (JArr batch)) w Hv Hw)
    as (Hw1 & _ & Hmax).
  specialize (Hmax batch eq_refl Hret).
  rewrite <- poll_cycle_watermark in Hw1, Hmax. fold w1 in Hw1, Hmax.
  exists [Sleep (intervalMs opts)].
  split; [|split; reflexivity].
  rewrite (poll_cycle_drop_below ch opts (fun _ => false) batch w1 Hv Hw1).
  - now rewrite filter_none.
  - intros txn Hin _. rewrite Hmax.
    eapply below_le; [apply level_le_max_r|].
    apply below_highest; [exact Hin|].
    revert txn Hin. now apply Forall_forall.
Qed.

Lemma repoll_is_silent_witness :
  Forall versioned [Sample.t12; Sample.t11; Sample.t10] /\
  returns (try_block plain_chalk Sample.defaults
             (Resolved (JArr [Sample.t12; Sample.t11; Sample.t10]))) JNull /\
  exists out,
    poll_cycle plain_chalk Sample.defaults
      (Resolved (JArr [Sample.t12; Sample.t11; Sample.t10])) (JStr "12")
    = (Ok tt, JStr "12", out) /\
    tracker_lines out = [] /\
    filter is_sleep out = [Sleep (Num 5000)].
Proof.
  assert (H1 : Forall versioned [Sample.t12; Sample.t11; Sample.t10])
    by (repeat constructor; discriminate).
  assert (H2 : returns (try_block plain_chalk Sample.defaults
                          (Resolved (JArr [Sample.t12; Sample.t11; Sample.t10])))
                 JNull)
    by (exists tt; vm_compute; reflexivity).
  split; [exact H1|]. split; [exact H2|].
  exact (repoll_is_silent plain_chalk Sample.defaults
           [Sample.t12; Sample.t11; Sample.t10] JNull H1 (or_introl eq_refl) H2).
Defined.

(** ** The command *)

Section Command.

Lemma pollEvents_announces (ch : Chalk) (addr : string) (opts : poll_options)
    (answers : list response) (m : string) :
  moduleFilter opts = Some m -> m <> EmptyString ->
  exists w out,
    pollEvents ch addr opts answers = (Ok tt, w, out) /\
    In (Info ("Module filter: " +++ m)) out.
Proof.
  intros Hmf Hm. apply String.eqb_neq in Hm.
  pose proof (poll_loop_returns ch opts answers initial_lastSeenVersion) as Hr.
  unfold pollEvents, announce. rewrite Hmf, Hm. unfold bind, log, ret.
  destruct (batchId opts) as [b|]; [destruct (String.eqb b EmptyString)|];
    cbv beta iota zeta;
    destruct (poll_loop ch opts answers initial_lastSeenVersion) as [[r w] out];
    cbn [fst] in Hr; subst r;
    eexists; eexists; (split; [reflexivity|]); cbn [app In]; tauto.
Qed.

End Command.

(** X12. With an address the command always ends up polling: no value
    of [--network] makes it exit, since a refused name is caught, and no
    answer of the gateway makes the poller throw. The table of endpoints
    is untouched, the current network is the old one or the requested
    one, and the module filter is always announced: it is never absent,
    an empty [--module] falling back to [oil_supply_chain]. Without an
    address the command exits with code 1 before anything else. *)
Theorem trackCommand_starts (ch : Chalk) (opts : track_opts) (rpc : RPCClient)
    (answers : list response) :
  (is_set (opt_address opts) = false ->
   trackCommand ch opts rpc answers
   = Exited 1 [ErrorLine "Address is required. Use --address <accountAddress>"]) /\
  (is_set (opt_address opts) = true ->
   exists rpc' w out,
     trackCommand ch opts rpc answers = Polling rpc' (Ok tt) w out /\
     networks rpc' = networks rpc /\
     (currentNetwork rpc' = currentNetwork rpc \/
      currentNetwork rpc' = string_or (opt_network opts) "testnet") /\
     string_or (opt_module opts) "oil_supply_chain" <> EmptyString /\
     In (Info ("Module filter: "
               +++ string_or (opt_module opts) "oil_supply_chain")) out).
Proof.
  split; intros Ha; unfold trackCommand; rewrite Ha; cbn [negb]; [reflexivity|].
  set (m := string_or (opt_module opts) "oil_supply_chain").
  set (network := string_or (opt_network opts) "testnet").
  set (addr := string_or (opt_address opts) EmptyString).
  assert (Hm : m <> EmptyString).
  { subst m. unfold string_or. destruct (opt_module opts) as [s|]; [|discriminate].
    destruct (String.eqb_spec s EmptyString); [discriminate | assumption]. }
  match goal with
  | |- context [pollEvents ch addr ?p answers] =>
      destruct (pollEvents_announces ch addr p answers m eq_refl Hm)
        as (w & out3 & Hp & Hin)
  end.
  rewrite Hp.
  unfold setNetwork.
  destruct (negb (property_truthy (networks_get (networks rpc) network))).
  - eexists; eexists; eexists. split; [reflexivity|].
    split; [reflexivity|]. split; [now left|]. split; [exact Hm|].
    apply in_or_app. right. apply in_or_app. now right.
  - eexists; eexists; eexists. split; [reflexivity|].
    split; [reflexivity|]. split; [now right|]. split; [exact Hm|].
    apply in_or_app. right. apply in_or_app. now right.
Qed.

Lemma trackCommand_starts_witness :
  let opts := {| opt_address := Some "0xabc"; opt_module := Some EmptyString;
                 opt_batch := None; opt_network := Some "nowhere";
                 opt_interval := None |} in
  is_set (opt_address opts) = true /\
  exists rpc' w out,
    trackCommand plain_chalk opts new_RPCClient
      [Rejected (Error "Network error: No response from RPC endpoint")]
    = Polling rpc' (Ok tt) w out /\
    In (Info "Module filter: oil_supply_chain") out.
Proof.
  cbv zeta. split; [reflexivity|].
  destruct (proj2 (trackCommand_starts plain_chalk
                     {| opt_address := Some "0xabc";
                        opt_module := Some EmptyString;
                        opt_batch := None; opt_network := Some "nowhere";
                        opt_interval := None |}
                     new_RPCClient
                     [Rejected (Error "Network error: No response from RPC endpoint")])
             eq_refl)
    as (rpc' & w & out & H & _ & _ & _ & Hin).
  exists rpc', w, out. split; [exact H | exact Hin].
Defined.

(** ** [formatEvent] on flat events *)

Section Flat.

Lemma scalar_printable (v : value) : scalar v = true -> printable v.
Proof.
  destruct v as [| |[|]|z|s|l|f]; try discriminate; intros _; eexists; reflexivity.
Qed.

End Flat.

(** X13. [formatEvent] never throws on a flat event: an object whose
    [type] is a string or absent and whose data fields are strings,
    numbers, booleans, [null] or absent. It returns a line for every such
    event, whether the type parses or not and whatever the kind is. *)
Theorem formatEvent_flat (ch : Chalk) (fields : list (string * value)) :
  (own "type" fields = None \/ exists s, own "type" fields = Some (JStr s)) ->
  (forall k,
     scalar (get_optional
               (or_else (get_optional (JObj fields) "data") (JObj [])) k)
     = true) ->
  exists line, formatEvent ch (JObj fields) = Ok line.
Proof.
  intros Hty Hdata.
  assert (Hcases :
            (exists s, get (JObj fields) "type" = Ok (JStr s)) \/
            get (JObj fields) "type" = Ok JUndefined).
  { cbn [get]. destruct Hty as [->|[s ->]]; [now right | left; now exists s]. }
  destruct Hcases as [[s Hs]|Hu].
  - destruct (parseEventType s) as [p|] eqn:Hp.
    + rewrite (formatEvent_parsed ch (JObj fields) s p Hs Hp). cbv zeta.
      assert (Hpaint : forall style k,
                paint style
                  (or_else (get_optional (JObj fields) "data") (JObj [])) k
                = Ok (style (shown (get_optional
                                      (or_else (get_optional (JObj fields) "data")
                                         (JObj [])) k)))).
      { intros style k. apply paint_printable; [apply or_else_truthy|].
        apply scalar_printable, Hdata. }
      repeat match goal with
             | |- context [String.eqb (name p) ?k] =>
                 destruct (String.eqb (name p) k)
             end;
        rewrite ?Hpaint; eexists; reflexivity.
    + unfold formatEvent. rewrite Hs. cbn [rbind].
      destruct s as [|c s']; cbn [or_else truthy String.eqb negb call_parseEventType rbind];
        rewrite ?Hp; eexists; reflexivity.
  - unfold formatEvent. rewrite Hu. cbn. eexists. reflexivity.
Qed.

Lemma formatEvent_flat_witness :
  exists line,
    formatEvent plain_chalk
      (JObj [("type", JStr "0xabc::oil_supply_chain::TransportationEvent");
             ("data", JObj [("batch_id", JNum 7); ("method", JNull);
                            ("from", JBool true)])])
    = Ok line.
Proof.
  apply (formatEvent_flat plain_chalk
           [("type", JStr "0xabc::oil_supply_chain::TransportationEvent");
            ("data", JObj [("batch_id", JNum 7); ("method", JNull);
                           ("from", JBool true)])]).
  - right. eexists. reflexivity.
  - intros k. cbn.
    destruct (String.eqb k "batch_id"); [reflexivity|].
    destruct (String.eqb k "method"); [reflexivity|].
    destruct (String.eqb k "from"); reflexivity.
Defined.

(** ** Exactly once, in order *)

Section Delivery.

Variable ch : Chalk.
Variable opts : poll_options.

(** Ascending transactions above the watermark whose events all process
    are emitted one after the other, and the watermark ends at the last. *)
Lemma ascending_run_ok (l : list value) :
  Forall versioned l -> oldest_first l ->
  Forall (fun txn => fst (tx_run ch opts txn) = Ok tt) l ->
  forall w, watermark w ->
  Forall (fun txn => below (level w) txn = false) l ->
  exists w',
    for_of l (txn_body ch opts) w
    = (Ok tt, w', concat (map (tx_output ch opts) l)) /\
    watermark w' /\ level w' = level_max (level w) (highest l).
Proof.
  intros Hv Hs. induction Hs as [|txn rest Hrest IH Hold]; intros Hok w Hw Hb.
  - exists w. repeat split; [exact Hw|]. cbn. now destruct (level w).
  - apply Forall_cons_iff in Hv as [Hv Hvrest].
    apply Forall_cons_iff in Hb as [Hb Hbrest].
    apply Forall_cons_iff in Hok as [Hok Hokrest].
    rewrite for_of_cons.
    destruct (txn_body_cases ch opts txn w Hv Hw) as [[Hb' _]|[_ E]];
      [congruence|].
    rewrite E. clear E.
    destruct (tx_run ch opts txn) as [r o] eqn:E1. cbn [fst] in Hok. subst r.
    destruct (tx_run_output ch opts txn tt o E1) as [-> _].
    pose proof Hv as Hz. unfold versioned in Hz.
    destruct (version_of txn) as [z|] eqn:Ez; [clear Hz|congruence].
    destruct (version_of_get txn z Ez) as [_ Hp].
    assert (Hw1 : watermark (version_value txn)) by (right; congruence).
    destruct (IH Hvrest Hokrest (version_value txn) Hw1) as (w' & Hrun & Hw' & Hl').
    + unfold level. rewrite Hp. apply Forall_forall. intros t Ht.
      apply (older_below txn t z); [|exact Ez].
      revert t Ht. now apply Forall_forall.
    + exists w'. rewrite Hrun. cbn [map concat]. repeat split; [exact Hw'|].
      rewrite Hl'. cbn [highest fold_right]. fold (highest rest).
      rewrite Ez, <- level_max_assoc, (below_false_max w txn z Ez Hb).
      unfold level. now rewrite Hp.
Qed.

Lemma newer_than_all (seen : list value) (txn : value) :
  Forall (fun s => older s txn) seen -> below (highest seen) txn = false.
Proof.
  induction 1 as [|s rest Hs Hrest IH]; cbn [highest fold_right].
  - unfold below. now destruct (version_of txn).
  - fold (highest rest). unfold older in Hs. unfold below in IH |- *.
    destruct (version_of s) as [x|]; [|contradiction].
    destruct (version_of txn) as [y|]; [|contradiction].
    destruct (highest rest) as [m|]; simpl in *; apply Z.leb_gt.
    + apply Z.leb_gt in IH. lia.
    + lia.
Qed.

Lemma sorted_app_older (l1 l2 : list value) :
  oldest_first (l1 ++ l2) ->
  oldest_first l1 /\ oldest_first l2 /\
  Forall (fun t => Forall (fun s => older s t) l1) l2.
Proof.
  unfold oldest_first. induction l1 as [|x l1 IH]; cbn [app]; intros H.
  - repeat split; [constructor | exact H |].
    apply Forall_forall. intros t _. constructor.
  - apply StronglySorted_inv in H as [H Hx].
    destruct (IH H) as (H1 & H2 & H3).
    apply Forall_app in Hx as [Hx1 Hx2].
    repeat split; [now constructor | exact H2 |].
    apply Forall_forall. intros t Ht. constructor.
    + revert t Ht. now apply Forall_forall.
    + revert t Ht. now apply Forall_forall.
Qed.

Lemma logged_lines (out : list effect) :
  forallb event_line out = true -> logged out = out.
Proof.
  unfold logged. induction out as [|e out IH]; [reflexivity|].
  cbn [forallb filter]. intros H. apply andb_prop in H as [He Hout].
  destruct e; try discriminate; cbn [is_sleep negb]; now rewrite IH.
Qed.

Lemma logged_app (o1 o2 : list effect) : logged (o1 ++ o2) = logged o1 ++ logged o2.
Proof. unfold logged. apply filter_app. Qed.

(** One cycle of the full-history gateway: the transactions already seen
    are dropped, the arrivals are emitted. *)
Lemma full_history_cycle (seen arrived : list value) (w : value) :
  Forall versioned (seen ++ arrived) -> oldest_first (seen ++ arrived) ->
  Forall (fun txn => fst (tx_run ch opts txn) = Ok tt) arrived ->
  watermark w -> level w = highest seen ->
  exists w',
    poll_cycle ch opts (Resolved (JArr (rev (seen ++ arrived)))) w
    = (Ok tt, w',
       concat (map (tx_output ch opts) arrived) ++ [Sleep (intervalMs opts)]) /\
    watermark w' /\ level w' = highest (seen ++ arrived).
Proof.
  intros Hv Hs Hok Hw Hl.
  destruct (sorted_app_older seen arrived Hs) as (_ & Hsa & Hnew).
  pose proof Hv as Hv'. apply Forall_app in Hv' as [Hvs Hva].
  rewrite poll_cycle_unfold, try_block_resolved. cbn [ordered].
  rewrite rev_involutive.
  rewrite (txns_drop_below ch opts (fun txn => negb (below (level w) txn))
             (seen ++ arrived) Hv w Hw).
  2:{ intros t _ Hk. now apply negb_false_iff in Hk. }
  assert (Hfilter : filter (fun txn => negb (below (level w) txn)) (seen ++ arrived)
                    = arrived).
  { rewrite filter_app, Hl.
    assert (H1 : filter (fun txn => negb (below (highest seen) txn)) seen = []).
    { assert (Hall : forall t, In t seen -> below (highest seen) t = true).
      { intros t Ht. apply below_highest; [exact Ht|].
        revert t Ht. now apply Forall_forall. }
      clear -Hall. revert Hall. generalize (highest seen) as h.
      induction seen as [|x l IH]; intros h Hall; [reflexivity|].
      cbn [filter]. rewrite (Hall x (or_introl eq_refl)). cbn [negb].
      apply IH. intros t Ht. apply Hall. now right. }
    assert (H2 : filter (fun txn => negb (below (highest seen) txn)) arrived
                 = arrived).
    { clear -Hnew. induction arrived as [|x l IH]; [reflexivity|].
      apply Forall_cons_iff in Hnew as [Hx Hl]. cbn [filter].
      rewrite (newer_than_all seen x Hx). cbn [negb]. now rewrite IH. }
    now rewrite H1, H2. }
  rewrite Hfilter.
  destruct (ascending_run_ok arrived Hva Hsa Hok w Hw) as (w' & Hrun & Hw' & Hl').
  { rewrite Hl. apply Forall_forall. intros t Ht. apply newer_than_all.
    revert t Ht. now apply Forall_forall. }
  exists w'. rewrite Hrun. repeat split; [exact Hw'|].
  now rewrite Hl', Hl, highest_app.
Qed.

Lemma full_history_run (arrivals : list (list value)) :
  forall (seen : list value) (w : value),
  Forall versioned (seen ++ concat arrivals) ->
  oldest_first (seen ++ concat arrivals) ->
  Forall (fun txn => fst (tx_run ch opts txn) = Ok tt) (concat arrivals) ->
  watermark w -> level w = highest seen ->
  logged (effects_of (poll_loop ch opts (full_history seen arrivals)) w)
  = concat (map (tx_output ch opts) (concat arrivals)) /\
  level (watermark_after (poll_loop ch opts (full_history seen arrivals)) w)
  = highest (seen ++ concat arrivals).
Proof.
  induction arrivals as [|arrived rest IH]; intros seen w Hv Hs Hok Hw Hl.
  - cbn. now rewrite app_nil_r.
  - cbn [concat] in Hv, Hs, Hok. rewrite app_assoc in Hv, Hs.
    apply Forall_app in Hok as [Hoka Hokr].
    assert (Hv1 : Forall versioned (seen ++ arrived))
      by (apply Forall_app in Hv as [Hv _]; exact Hv).
    assert (Hs1 : oldest_first (seen ++ arrived))
      by (apply sorted_app_older in Hs as (Hs & _ & _); exact Hs).
    destruct (full_history_cycle seen arrived w Hv1 Hs1 Hoka Hw Hl)
      as (w' & Hcycle & Hw' & Hl').
    destruct (IH (seen ++ arrived) w' Hv Hs Hokr Hw' Hl') as [IH1 IH2].
    cbn [full_history concat]. unfold effects_of, watermark_after in *.
    rewrite poll_loop_cons. unfold effects_of, watermark_after.
    rewrite Hcycle. cbn [fst snd].
    destruct (poll_loop ch opts (full_history (seen ++ arrived) rest) w')
      as [[r w2] out2]. cbn [fst snd] in *.
    split.
    + rewrite !logged_app, IH1, map_app, concat_app. f_equal.
      cbn [logged filter is_sleep negb]. rewrite app_nil_r.
      apply logged_lines.
      clear. induction arrived as [|t l IHl]; [reflexivity|].
      cbn [map concat]. rewrite forallb_app, IHl, andb_true_r.
      unfold tx_output.
      induction (events_of t) as [|evt evs IHe]; [reflexivity|].
      cbn [map concat]. rewrite forallb_app, IHe, andb_true_r.
      exact (quiet_event_body ch opts evt JNull).
    + rewrite IH2. now rewrite app_assoc.
Qed.

End Delivery.

(** X14. Exactly once, in order. Against a gateway that answers every
    poll with the whole history so far, newest first, and for
    transactions whose events all process, the lines the poller logs over
    the whole run are the lines of every transaction of the history, each
    once, in ascending version order, however the arrivals are spread over
    the polls; and the watermark ends at the newest version. *)
Theorem exactly_once_in_order (ch : Chalk) (opts : poll_options)
    (arrivals : list (list value)) :
  Forall versioned (concat arrivals) -> oldest_first (concat arrivals) ->
  Forall (fun txn => fst (tx_run ch opts txn) = Ok tt) (concat arrivals) ->
  logged (effects_of (poll_loop ch opts (full_history [] arrivals))
            initial_lastSeenVersion)
  = concat (map (fun txn =>
                   concat (map (event_output ch opts) (events_of txn)))
              (concat arrivals)) /\
  level (watermark_after (poll_loop ch opts (full_history [] arrivals))
           initial_lastSeenVersion)
  = highest (concat arrivals).
Proof.
  intros Hv Hs Hok.
  exact (full_history_run ch opts arrivals [] initial_lastSeenVersion
           Hv Hs Hok watermark_initial eq_refl).
Qed.

Lemma exactly_once_in_order_witness :
  let arrivals := [[Sample.t10]; []; [Sample.t11; Sample.t12]] in
  Forall versioned (concat arrivals) /\
  oldest_first (concat arrivals) /\
  logged (effects_of
            (poll_loop plain_chalk Sample.defaults (full_history [] arrivals))
            initial_lastSeenVersion)
  = concat (map (fun txn =>
                   concat (map (event_output plain_chalk Sample.defaults)
                             (events_of txn)))
              [Sample.t10; Sample.t11; Sample.t12]).
Proof.
  cbv zeta.
  assert (H1 : Forall versioned (concat [[Sample.t10]; []; [Sample.t11; Sample.t12]]))
    by (repeat constructor; discriminate).
  assert (H2 : oldest_first (concat [[Sample.t10]; []; [Sample.t11; Sample.t12]]))
    by (repeat constructor; vm_compute; reflexivity).
  split; [exact H1|]. split; [exact H2|].
  apply (proj1 (exactly_once_in_order plain_chalk Sample.defaults
                  [[Sample.t10]; []; [Sample.t11; Sample.t12]] H1 H2
                  ltac:(repeat constructor))).
Defined.

(** ** Reading the compiler's output *)

Section CompilerOutput.

Import Compiler.

Lemma error_lines_app (l1 l2 : list compile_error) :
  error_lines (l1 ++ l2) = error_lines l1 ++ error_lines l2.
Proof. unfold error_lines. now rewrite map_app, concat_app. Qed.

(** The loop, from any state: what it adds to the errors and warnings. *)
Lemma fold_lines (lines : list string) :
  forall (errs : list compile_error) (warns : list string)
         (current : option compile_error),
  match fold_left line_step lines (errs, warns, current) with
  | (errs', warns', current') =>
      error_lines (errs' ++ pushed current')
      = error_lines (errs ++ pushed current)
        ++ filter kept_line
             (match current with
              | Some _ => lines
              | None => from_first_error lines
              end) /\
      map message (errs' ++ pushed current')
      = map message (errs ++ pushed current) ++ filter error_line lines /\
      warns'
      = warns ++ filter (fun l => negb (error_line l) && warning_line l) lines
  end.
Proof.
  induction lines as [|line rest IH]; intros errs warns current.
  - cbn [fold_left filter]. destruct current; cbn [from_first_error filter];
      now rewrite !app_nil_r.
  - assert (Hkept : filter kept_line (line :: rest)
                    = if kept_line line then line :: filter kept_line rest
                      else filter kept_line rest) by reflexivity.
    cbn [fold_left line_step]. cbn [filter].
    destruct (error_line line) eqn:Ee; cbn [negb andb].
    + assert (Hk : kept_line line = true) by (unfold kept_line; now rewrite Ee).
      rewrite Hk in Hkept.
      specialize (IH (errs ++ pushed current) warns
                     (Some {| message := line; details := [] |})).
      destruct (fold_left line_step rest _) as [[errs' warns'] current'].
      destruct IH as (IH1 & IH2 & IH3). repeat split.
      * rewrite IH1, error_lines_app.
        assert (Hreg : match current with
                       | Some _ => line :: rest
                       | None => from_first_error (line :: rest)
                       end = line :: rest)
          by (destruct current; [reflexivity|]; cbn [from_first_error];
              now rewrite Ee).
        rewrite Hreg, Hkept. unfold error_lines at 2.
        cbn [pushed map concat message details app].
        now rewrite <- !app_assoc.
      * rewrite IH2, !map_app. cbn [pushed map message].
        now rewrite <- !app_assoc.
      * exact IH3.
    + destruct (warning_line line) eqn:Ew; cbn [negb andb].
      * assert (Hk : kept_line line = false)
          by (unfold kept_line; now rewrite Ee, Ew).
        rewrite Hk in Hkept.
        specialize (IH errs (warns ++ [line]) current).
        destruct (fold_left line_step rest _) as [[errs' warns'] current'].
        destruct IH as (IH1 & IH2 & IH3). repeat split.
        -- rewrite IH1. destruct current; [now rewrite Hkept|].
           cbn [from_first_error]. now rewrite Ee.
        -- exact IH2.
        -- rewrite IH3. now rewrite <- app_assoc.
      * destruct current as [e|].
        -- destruct (blank line) eqn:Eb; cbn [negb].
           ++ assert (Hk : kept_line line = false)
                by (unfold kept_line; now rewrite Ee, Ew, Eb).
              rewrite Hk in Hkept.
              specialize (IH errs warns (Some e)).
              destruct (fold_left line_step rest _) as [[errs' warns'] current'].
              destruct IH as (IH1 & IH2 & IH3).
              repeat split; [now rewrite Hkept | assumption | assumption].
           ++ assert (Hk : kept_line line = true)
                by (unfold kept_line; now rewrite Ee, Ew, Eb).
              rewrite Hk in Hkept.
              specialize (IH errs warns
                            (Some {| message := message e;
                                     details := details e ++ [line] |})).
              destruct (fold_left line_step rest _) as [[errs' warns'] current'].
              destruct IH as (IH1 & IH2 & IH3). repeat split.
              ** rewrite IH1, Hkept, !error_lines_app. unfold error_lines at 2 4.
                 cbn [pushed map concat message details].
                 rewrite !app_nil_r, <- !app_assoc. cbn [app].
                 now rewrite <- app_assoc.
              ** rewrite IH2, !map_app. reflexivity.
              ** exact IH3.
        -- specialize (IH errs warns None).
           destruct (fold_left line_step rest _) as [[errs' warns'] current'].
           destruct IH as (IH1 & IH2 & IH3).
           repeat split; [|assumption|assumption].
           cbn [from_first_error]. now rewrite Ee.
Qed.

End CompilerOutput.

(** X15. [parseCompilerOutput] neither invents nor repeats nor reorders a
    line. The messages of the errors are the lines with an error marker,
    in order; the warnings are the lines with a warning marker and no
    error marker, in order; and the errors, read as message then details,
    are the output from its first error line on, without the warning lines
    and the blank lines. What comes before the first error line, warnings
    apart, is dropped. *)
Theorem parseCompilerOutput_lines (output : string) :
  let p := Compiler.parseCompilerOutput output in
  let lines := Compiler.split_lines output in
  map Compiler.message (Compiler.errors p) = filter Compiler.error_line lines /\
  Compiler.warnings p
  = filter (fun l => negb (Compiler.error_line l) && Compiler.warning_line l)
      lines /\
  error_lines (Compiler.errors p) = filter kept_line (from_first_error lines).
Proof.
  cbv zeta. unfold Compiler.parseCompilerOutput.
  pose proof (fold_lines (Compiler.split_lines output) [] [] None) as H.
  destruct (fold_left Compiler.line_step (Compiler.split_lines output) ([], [], None))
    as [[errs warns] current].
  destruct H as (H1 & H2 & H3). cbn [Compiler.errors Compiler.warnings].
  repeat split; assumption.
Qed.

(** An output of the Move compiler, read. *)
Example parseCompilerOutput_sample :
  let nl := String (ascii_of_nat 10) EmptyString in
  Compiler.parseCompilerOutput
    ("Compiling, may take a little while" +++ nl
     +++ "warning: unused variable" +++ nl
     +++ "error: unbound module" +++ nl
     +++ "  at sources/a.move:3" +++ nl
     +++ "   " +++ nl
     +++ "Error: type mismatch, also a warning: see above" +++ nl)
  = {| Compiler.errors :=
         [{| Compiler.message := "error: unbound module";
             Compiler.details := ["  at sources/a.move:3"] |};
          {| Compiler.message := "Error: type mismatch, also a warning: see above";
             Compiler.details := [] |}];
       Compiler.warnings := ["warning: unused variable"] |}.
Proof. reflexivity. Qed.

(** ** Waiting for a transaction *)

Section Waiting.

Import RpcClient.

Lemma wait_loop_outcomes (startTime timeoutMs : Z) (clock : list Z) :
  forall (answers : list response) (r : result value) (out : list effect),
  wait_loop startTime timeoutMs clock answers = Some (r, out) ->
  (exists k, out = repeat (Sleep (Num 1000)) k /\ (k <= length answers)%nat) /\
  match r with
  | Ok txn =>
      In (Resolved txn) answers /\
      exists s, get txn "success" = Ok s /\ s <> JUndefined
  | Throw e => e = Error "Transaction confirmation timeout"
  end.
Proof.
  induction clock as [|now later IH]; intros answers r out H; [discriminate|].
  cbn [wait_loop] in H.
  destruct (now - startTime <? timeoutMs).
  2:{ injection H as <- <-. split; [exists 0%nat; split; [reflexivity | lia]|].
      reflexivity. }
  destruct answers as [|a rest]; [discriminate|].
  assert (Hagain : match wait_loop startTime timeoutMs later rest with
                   | Some (res, o) => Some (res, Sleep (Num 1000) :: o)
                   | None => None
                   end = Some (r, out) ->
                   (exists k, out = repeat (Sleep (Num 1000)) k /\
                              (k <= length (a :: rest))%nat) /\
                   match r with
                   | Ok txn =>
                       In (Resolved txn) (a :: rest) /\
                       exists s, get txn "success" = Ok s /\ s <> JUndefined
                   | Throw e => e = Error "Transaction confirmation timeout"
                   end).
  { destruct (wait_loop startTime timeoutMs later rest) as [[res o]|] eqn:E;
      [|discriminate].
    intros [= <- <-]. destruct (IH rest res o E) as [[k [-> Hk]] Hr].
    split.
    - exists (S k). split; [reflexivity | cbn [length]; lia].
    - destruct res as [txn|e]; [|exact Hr].
      destruct Hr as [Hin Hs]. split; [now right | exact Hs]. }
  destruct a as [data|e]; cbn [await rbind] in H; [|now apply Hagain].
  destruct (get data "success") as [s|e] eqn:Es; cbn [rbind] in H;
    [|now apply Hagain].
  destruct s; try (now apply Hagain);
    injection H as <- <-;
    (split; [exists 0%nat; split; [reflexivity | cbn [length]; lia]|]);
    (split; [now left|]); eexists; (split; [exact Es | discriminate]).
Qed.

Lemma wait_loop_ends (startTime timeoutMs : Z) (clock : list Z) :
  forall answers : list response,
  (exists reading, In reading clock /\ timeoutMs <= reading - startTime) ->
  (length clock <= length answers)%nat ->
  wait_loop startTime timeoutMs clock answers <> None.
Proof.
  induction clock as [|now later IH]; intros answers [reading [Hin Hlate]] Hlen;
    [contradiction|].
  cbn [wait_loop].
  destruct (Z.ltb_spec (now - startTime) timeoutMs) as [Hlt|Hge]; [|discriminate].
  destruct answers as [|a rest]; [cbn [length] in Hlen; lia|].
  assert (Hrest : wait_loop startTime timeoutMs later rest <> None).
  { apply IH; [|cbn [length] in Hlen; lia].
    destruct Hin as [->|Hin]; [lia|]. now exists reading. }
  destruct (wait_loop startTime timeoutMs later rest) as [[res o]|];
    [|congruence].
  destruct a as [data|e]; cbn [await rbind]; [|discriminate].
  destruct (get data "success") as [s|e]; cbn [rbind]; [|discriminate].
  destruct s; discriminate.
Qed.

End Waiting.

(** X16. [waitForTransaction] ends in one of two ways only. It returns
    a transaction the gateway answered with, one that has a [success]
    property; or it throws the timeout error. A rejected fetch, a body
    without [success] or a [null] body never ends the wait and never
    escapes as an error: each costs one second of waiting and the loop
    goes on. And it does end: once a reading of the clock is past the
    deadline, the function has returned or thrown. *)
Theorem waitForTransaction_outcomes (txnHash : string) (timeoutMs : Z)
    (clock : list Z) (answers : list response) :
  (forall r out,
     RpcClient.waitForTransaction txnHash timeoutMs clock answers = Some (r, out) ->
     (exists k, out = repeat (Sleep (Num 1000)) k /\ (k <= length answers)%nat) /\
     match r with
     | Ok txn =>
         In (Resolved txn) answers /\
         exists s, get txn "success" = Ok s /\ s <> JUndefined
     | Throw e => e = Error "Transaction confirmation timeout"
     end) /\
  (forall startTime later,
     clock = startTime :: later ->
     (exists reading, In reading later /\ timeoutMs <= reading - startTime) ->
     (length later <= length answers)%nat ->
     RpcClient.waitForTransaction txnHash timeoutMs clock answers <> None).
Proof.
  split.
  - intros r out H. destruct clock as [|startTime later]; [discriminate|].
    exact (wait_loop_outcomes startTime timeoutMs later answers r out H).
  - intros startTime later -> Hlate Hlen.
    exact (wait_loop_ends startTime timeoutMs later answers Hlate Hlen).
Qed.

Lemma waitForTransaction_outcomes_witness :
  let pending := Resolved (JObj [("hash", JStr "0xfeed")]) in
  let failed := Rejected (Error "RPC Error (404): Transaction not found") in
  let done := JObj [("hash", JStr "0xfeed"); ("success", JBool false)] in
  RpcClient.waitForTransaction "0xfeed" 30000 [1000; 1001; 2003; 3005]
    [failed; pending; Resolved done]
  = Some (Ok done, [Sleep (Num 1000); Sleep (Num 1000)]) /\
  In (Resolved done) [failed; pending; Resolved done] /\
  RpcClient.waitForTransaction "0xfeed" 30000 [1000; 1001; 31000]
    [failed; pending]
  <> None.
Proof.
  cbv zeta. split; [reflexivity|]. split.
  - exact (proj1 (proj2 (proj1 (waitForTransaction_outcomes "0xfeed" 30000
                                  [1000; 1001; 2003; 3005]
                                  [Rejected (Error "RPC Error (404): Transaction not found");
                                   Resolved (JObj [("hash", JStr "0xfeed")]);
                                   Resolved (JObj [("hash", JStr "0xfeed");
                                                   ("success", JBool false)])])
                           (Ok (JObj [("hash", JStr "0xfeed");
                                      ("success", JBool false)]))
                           [Sleep (Num 1000); Sleep (Num 1000)] eq_refl))).
  - apply (proj2 (waitForTransaction_outcomes "0xfeed" 30000 [1000; 1001; 31000]
                    [Rejected (Error "RPC Error (404): Transaction not found");
                     Resolved (JObj [("hash", JStr "0xfeed")])])
             1000 [1001; 31000] eq_refl).
    + exists 31000. split; [simpl; tauto | lia].
    + simpl. lia.
Defined.
